(** * postmanq, package [common]: file [post.go]

    A shallow embedding of [common/post.go] and the properties of its
    timeout profile, address parser, message initialisation and of
    [ReturnMail], the function that hands a mail back after a failed
    delivery attempt.

    Conventions of the embedding.
    - A Go [string] is a sequence of bytes: [string] of [ascii].
    - Go's [int], [int64] and [time.Duration] are [Z]; the only place the
      source depends on the width of [int] is [strconv.Atoi], whose range
      check is written out.
    - A Go function returning [(T, error)] returns a pair whose second
      component is [option error], [None] being [nil].
    - Effects (a worker's [Reset], a send on a channel, a run-time panic)
      are threaded through a small state and error monad. *)

From Stdlib Require Import ZArith Strings.String Strings.Ascii List Bool Lia.
Import ListNotations.

Open Scope string_scope.
Open Scope Z_scope.

Set Implicit Arguments.

(* ================================================================= *)
(** * Package [time] *)

Module time.

(** [time.Duration] is an [int64] count of nanoseconds. *)
Definition Duration := Z.

Definition Nanosecond : Duration := 1.
Definition Microsecond : Duration := 1000 * Nanosecond.
Definition Millisecond : Duration := 1000 * Microsecond.
Definition Second : Duration := 1000 * Millisecond.
Definition Minute : Duration := 60 * Second.

(** [time.Time]: seconds elapsed since January 1, year 1 00:00:00 UTC,
    and nanoseconds within the second. *)
Record Time := { sec : Z; nsec : Z }.

(** Seconds between year 1 and the Unix epoch, negated
    ([internalToUnix] of the library). *)
Definition internalToUnix : Z := -62135596800.

Definition wrap64 (z : Z) : Z :=
  (z + 2 ^ 63) mod 2 ^ 64 - 2 ^ 63.

Definition unixSec (t : Time) : Z := sec t + internalToUnix.

(** [t.UnixNano()], computed in [int64]. *)
Definition UnixNano (t : Time) : Z :=
  wrap64 (unixSec t * 1000000000 + nsec t).

(** [t.IsZero()]. *)
Definition IsZero (t : Time) : bool :=
  (sec t =? 0) && (nsec t =? 0).

(** The wall clock: [time.Now()] reads it and lets it advance.  The
    readings to come are a function of the number of reads so far. *)
Record Clock := { reading : nat -> Time; reads : nat }.

Definition Now (c : Clock) : Time * Clock :=
  (reading c (reads c), {| reading := reading c; reads := S (reads c) |}).

(** A reading lies in the range in which [UnixNano] is defined and is
    later than the Unix epoch. *)
Definition after_epoch (t : Time) : Prop :=
  0 <= nsec t < 1000000000 /\
  0 < unixSec t * 1000000000 + nsec t < 2 ^ 63.

End time.

(* ================================================================= *)
(** * Bytes and strings *)

(** The value of a byte. *)
Definition byte (a : ascii) : Z := Z.of_N (N_of_ascii a).

(** [s[n:]]. *)
Fixpoint drop (n : nat) (s : string) : string :=
  match n, s with
  | O, _ => s
  | S n', String _ s' => drop n' s'
  | S _, EmptyString => EmptyString
  end.

(** [s[:n]]. *)
Fixpoint take (n : nat) (s : string) : string :=
  match n, s with
  | O, _ => EmptyString
  | S n', String a s' => String a (take n' s')
  | S _, EmptyString => EmptyString
  end.

(** [s[i:j]]. *)
Definition slice (i j : nat) (s : string) : string :=
  take (j - i) (drop i s).

(** Every byte of [s] satisfies [p]. *)
Fixpoint all_bytes (p : ascii -> bool) (s : string) : bool :=
  match s with
  | EmptyString => true
  | String a s' => p a && all_bytes p s'
  end.

(** [s] read from its last byte to its first. *)
Fixpoint rev_string (s : string) : string :=
  match s with
  | EmptyString => EmptyString
  | String a s' => rev_string s' ++ String a EmptyString
  end.

(* ================================================================= *)
(** * Package [unicode/utf8] *)

Module utf8.

Definition RuneError : Z := 65533.
Definition RuneSelf : Z := 128.
Definition UTFMax : nat := 4.

(** A continuation byte [10xxxxxx]. *)
Definition is_cont (b : Z) : bool := (128 <=? b) && (b <=? 191).

(** [utf8.RuneStart]. *)
Definition RuneStart (a : ascii) : bool := negb (is_cont (byte a)).

(** The library's table [first] and its accept ranges: for a leading
    byte, the length of the encoding and the bounds of the second byte;
    [None] for a byte that starts no encoding of two bytes or more. *)
Definition lead (b : Z) : option (nat * Z * Z) :=
  if (194 <=? b) && (b <=? 223) then Some (2%nat, 128, 191)
  else if b =? 224 then Some (3%nat, 160, 191)
  else if (225 <=? b) && (b <=? 236) then Some (3%nat, 128, 191)
  else if b =? 237 then Some (3%nat, 128, 159)
  else if (238 <=? b) && (b <=? 239) then Some (3%nat, 128, 191)
  else if b =? 240 then Some (4%nat, 144, 191)
  else if (241 <=? b) && (b <=? 243) then Some (4%nat, 128, 191)
  else if b =? 244 then Some (4%nat, 128, 143)
  else None.

(** [utf8.DecodeRuneInString]: the first rune of [s] and its width in
    bytes; [(RuneError, 0)] on the empty string, [(RuneError, 1)] on a
    byte that starts no valid encoding. *)
Definition DecodeRuneInString (s : string) : Z * nat :=
  match s with
  | EmptyString => (RuneError, 0%nat)
  | String a0 s1 =>
    let s0 := byte a0 in
    if s0 <? RuneSelf then (s0, 1%nat)
    else
      match lead s0 with
      | None => (RuneError, 1%nat)
      | Some (sz, lo, hi) =>
        match s1 with
        | EmptyString => (RuneError, 1%nat)
        | String a1 s2 =>
          let b1 := byte a1 in
          if (b1 <? lo) || (hi <? b1) then (RuneError, 1%nat)
          else if (sz <=? 2)%nat
          then (Z.lor (Z.shiftl (Z.land s0 31) 6) (Z.land b1 63), 2%nat)
          else
            match s2 with
            | EmptyString => (RuneError, 1%nat)
            | String a2 s3 =>
              let b2 := byte a2 in
              if negb (is_cont b2) then (RuneError, 1%nat)
              else if (sz <=? 3)%nat
              then (Z.lor (Z.shiftl (Z.land s0 15) 12)
                      (Z.lor (Z.shiftl (Z.land b1 63) 6) (Z.land b2 63)),
                    3%nat)
              else
                match s3 with
                | EmptyString => (RuneError, 1%nat)
                | String a3 _ =>
                  let b3 := byte a3 in
                  if negb (is_cont b3) then (RuneError, 1%nat)
                  else (Z.lor (Z.shiftl (Z.land s0 7) 18)
                          (Z.lor (Z.shiftl (Z.land b1 63) 12)
                             (Z.lor (Z.shiftl (Z.land b2 63) 6)
                                (Z.land b3 63))),
                        4%nat)
                end
            end
        end
      end
  end.

(** The backward search of [DecodeLastRuneInString] for the byte that
    starts the last rune.  [before] holds the bytes that precede the
    last one, nearest first; [len] is the length of the candidate
    encoding if the next byte starts it.  The search inspects at most
    [steps] bytes; when it runs off the beginning of the string the
    candidate is the whole string. *)
Fixpoint back_len (steps : nat) (before : string) (len : nat) : nat :=
  match before with
  | EmptyString => (len - 1)%nat
  | String a before' =>
    match steps with
    | O => len
    | S steps' =>
      if RuneStart a then len else back_len steps' before' (S len)
    end
  end.

(** [utf8.DecodeLastRuneInString]: the last rune of [s] and its width. *)
Definition DecodeLastRuneInString (s : string) : Z * nat :=
  match rev_string s with
  | EmptyString => (RuneError, 0%nat)
  | String a before =>
    if byte a <? RuneSelf then (byte a, 1%nat)
    else
      let len := back_len (UTFMax - 1) before 2 in
      let start := (String.length s - len)%nat in
      let (r, size) := DecodeRuneInString (drop start s) in
      if (size =? len)%nat then (r, size) else (RuneError, 1%nat)
  end.

End utf8.

(* ================================================================= *)
(** * Package [unicode] *)

Module unicode.

(** [unicode.IsSpace]: the Latin-1 white space and the code points of
    the Unicode property White_Space. *)
Definition IsSpace (r : Z) : bool :=
  ((9 <=? r) && (r <=? 13)) || (r =? 32) || (r =? 133) || (r =? 160) ||
  (r =? 5760) || ((8192 <=? r) && (r <=? 8202)) ||
  (r =? 8232) || (r =? 8233) || (r =? 8239) || (r =? 8287) ||
  (r =? 12288).

End unicode.

(* ================================================================= *)
(** * Package [strings] *)

Module strings.

(** [strings.Split(s, sep)] for a separator of one byte, the only use
    the source makes of it: the pieces of [s] between the occurrences
    of [sep]. *)
Fixpoint Split (s : string) (sep : ascii) : list string :=
  match s with
  | EmptyString => [EmptyString]
  | String a s' =>
    if Ascii.eqb a sep then EmptyString :: Split s' sep
    else
      match Split s' sep with
      | piece :: pieces => String a piece :: pieces
      | [] => [String a EmptyString]
      end
  end.

(** [indexFunc(s, f, false)], the loop [for i, r := range s]: the index
    of the first rune that does not satisfy [f]; [None] is [-1]. *)
Fixpoint indexFunc (fuel : nat) (f : Z -> bool) (s : string) (i : nat)
  : option nat :=
  match fuel with
  | O => None
  | S fuel' =>
    match s with
    | EmptyString => None
    | String _ _ =>
      let (r, width) := utf8.DecodeRuneInString s in
      if f r then indexFunc fuel' f (drop width s) (i + width)
      else Some i
    end
  end.

(** [lastIndexFunc(s, f, false)], the loop [for i := len(s); i > 0;]:
    the index of the last rune that does not satisfy [f]. *)
Fixpoint lastIndexFunc (fuel : nat) (f : Z -> bool) (s : string) (i : nat)
  : option nat :=
  match fuel with
  | O => None
  | S fuel' =>
    if (i =? 0)%nat then None
    else
      let (r, size) := utf8.DecodeLastRuneInString (take i s) in
      let i := (i - size)%nat in
      if f r then lastIndexFunc fuel' f s i else Some i
  end.

(** [strings.TrimLeftFunc]. *)
Definition TrimLeftFunc (s : string) (f : Z -> bool) : string :=
  match indexFunc (String.length s) f s 0 with
  | None => EmptyString
  | Some i => drop i s
  end.

(** [strings.TrimRightFunc]. *)
Definition TrimRightFunc (s : string) (f : Z -> bool) : string :=
  match lastIndexFunc (String.length s) f s (String.length s) with
  | Some i =>
    match drop i s with
    | String a _ =>
      if utf8.RuneSelf <=? byte a
      then take (i + snd (utf8.DecodeRuneInString (drop i s))) s
      else take (i + 1) s
    | EmptyString => take (i + 1) s
    end
  | None => EmptyString
  end.

(** [strings.TrimFunc]. *)
Definition TrimFunc (s : string) (f : Z -> bool) : string :=
  TrimRightFunc (TrimLeftFunc s f) f.

(** [strings.TrimSpace]: [s] without its leading and trailing white
    space, as defined by Unicode. *)
Definition TrimSpace (s : string) : string :=
  TrimFunc s unicode.IsSpace.

End strings.

(* ================================================================= *)
(** * Package [strconv] *)

Module strconv.

(** The size in bits of [int]. *)
Definition IntSize : Z := 64.

Inductive NumError := ErrSyntax | ErrRange.

(** The value of a decimal digit. *)
Definition digit (a : ascii) : option Z :=
  let c := byte a in
  if (48 <=? c) && (c <=? 57) then Some (c - 48) else None.

(** The digit loop of [ParseUint(s, 10, 0)]: [n] is the value read so
    far; a byte that is no decimal digit is a syntax error. *)
Fixpoint digits (s : string) (n : Z) : option Z :=
  match s with
  | EmptyString => Some n
  | String a s' =>
    match digit a with
    | Some d => digits s' (n * 10 + d)
    | None => None
    end
  end.

(** [strconv.Atoi], that is [ParseInt(s, 10, 0)]: an optional sign and
    one decimal digit or more, the value within the range of [int]. *)
Definition Atoi (s : string) : Z * option NumError :=
  match s with
  | EmptyString => (0, Some ErrSyntax)
  | String a s' =>
    let neg := Ascii.eqb a "-" in
    let s1 := if Ascii.eqb a "+" || neg then s' else s in
    match s1 with
    | EmptyString => (0, Some ErrSyntax)
    | String _ _ =>
      match digits s1 0 with
      | None => (0, Some ErrSyntax)
      | Some un =>
        let cutoff := 2 ^ (IntSize - 1) in
        if negb neg && (cutoff <=? un)
        then (cutoff - 1, Some ErrRange)
        else if neg && (cutoff <? un)
        then (- cutoff, Some ErrRange)
        else (if neg then - un else un, None)
      end
    end
  end.

End strconv.

(* ================================================================= *)
(** * Package [regexp] *)

(** The part of the regular expression engine that the pattern of the
    source needs: anchors, literal bytes, classes of bytes, the greedy
    repetitions [x+] and [x{min,max}] of a class, concatenation and
    capturing groups.  Matching is the leftmost-first (backtracking)
    matching of the library, on bytes: every class of the source is a
    class of ASCII characters, so no byte of a longer encoding belongs
    to one. *)
Module regexp.

Local Open Scope nat_scope.

Inductive Regexp :=
| BeginText                                   (* [^] *)
| EndText                                     (* [$] *)
| Literal (c : ascii)
| CharClass (cls : ascii -> bool)             (* [[...]] *)
| Plus (cls : ascii -> bool)                  (* [[...]+] *)
| Repeat (cls : ascii -> bool) (min max : nat) (* [[...]{min,max}] *)
| Concat (r1 r2 : Regexp)
| Capture (index : nat) (r : Regexp).         (* [(...)] *)

(** A thread of the matcher: the input still to read, the index of its
    first byte, and the capturing groups closed so far. *)
Record Thread := {
  rest : string;
  pos : nat;
  caps : list (nat * (nat * nat))
}.

Definition Cont := Thread -> option Thread.

Definition orelse (a : option Thread) (b : option Thread) : option Thread :=
  match a with
  | Some t => Some t
  | None => b
  end.

(** Greedy [cls*]: as many bytes as possible, then fewer. *)
Fixpoint star (cls : ascii -> bool) (k : string -> nat -> option Thread)
  (s : string) (p : nat) : option Thread :=
  match s with
  | String a s' =>
    if cls a then orelse (star cls k s' (S p)) (k s p) else k s p
  | EmptyString => k s p
  end.

(** Greedy [cls{min,max}]. *)
Fixpoint repeat (cls : ascii -> bool) (min max : nat)
  (k : string -> nat -> option Thread) (s : string) (p : nat)
  : option Thread :=
  let stop := if min =? 0 then k s p else None in
  match max with
  | O => stop
  | S max' =>
    match s with
    | String a s' =>
      if cls a
      then orelse (repeat cls (Nat.pred min) max' k s' (S p)) stop
      else stop
    | EmptyString => stop
    end
  end.

Definition moved (t : Thread) (s : string) (p : nat) : Thread :=
  {| rest := s; pos := p; caps := caps t |}.

(** The threads of [r] from [t], in order of priority; [k] is what
    remains to match. *)
Fixpoint run (r : Regexp) (k : Cont) (t : Thread) : option Thread :=
  match r with
  | BeginText => if pos t =? 0 then k t else None
  | EndText =>
    match rest t with
    | EmptyString => k t
    | String _ _ => None
    end
  | Literal c =>
    match rest t with
    | String a s' => if Ascii.eqb a c then k (moved t s' (S (pos t))) else None
    | EmptyString => None
    end
  | CharClass cls =>
    match rest t with
    | String a s' => if cls a then k (moved t s' (S (pos t))) else None
    | EmptyString => None
    end
  | Plus cls =>
    match rest t with
    | String a s' =>
      if cls a then star cls (fun s p => k (moved t s p)) s' (S (pos t))
      else None
    | EmptyString => None
    end
  | Repeat cls min max =>
    repeat cls min max (fun s p => k (moved t s p)) (rest t) (pos t)
  | Concat r1 r2 => run r1 (run r2 k) t
  | Capture i r1 =>
    run r1 (fun t' => k {| rest := rest t'; pos := pos t';
                           caps := (i, (pos t, pos t')) :: caps t' |}) t
  end.

(** The number of capturing groups of [r] ([NumSubexp]). *)
Fixpoint NumSubexp (r : Regexp) : nat :=
  match r with
  | Concat r1 r2 => NumSubexp r1 + NumSubexp r2
  | Capture _ r1 => S (NumSubexp r1)
  | _ => 0
  end.

(** A match: where it starts, where it ends, its groups. *)
Record Match := { m_start : nat; m_end : nat; m_caps : list (nat * (nat * nat)) }.

(** [doExecute]: the leftmost match that starts at index [p] or later;
    [s] is the input from index [p] on. *)
Fixpoint doExecute (re : Regexp) (s : string) (p : nat) : option Match :=
  match run re Some {| rest := s; pos := p; caps := [] |} with
  | Some t => Some {| m_start := p; m_end := pos t; m_caps := caps t |}
  | None =>
    match s with
    | String _ s' => doExecute re s' (S p)
    | EmptyString => None
    end
  end.

(** The loop of [allMatches] with [n = -1]: the successive matches that
    do not overlap.  [prevMatchEnd] is [None] for [-1].  Every turn
    moves [p] forward, so [length s + 2] turns reach the end. *)
Fixpoint allMatches (fuel : nat) (re : Regexp) (s : string) (p : nat)
  (prevMatchEnd : option nat) : list Match :=
  match fuel with
  | O => []
  | S fuel' =>
    if String.length s <? p then []
    else
      match doExecute re (drop p s) p with
      | None => []
      | Some m =>
        let empty := m_end m =? p in
        let accept :=
          negb (empty &&
                match prevMatchEnd with
                | Some e => m_start m =? e
                | None => false
                end) in
        let p' :=
          if empty
          then
            let width := snd (utf8.DecodeRuneInString (drop p s)) in
            if 0 <? width then p + width else String.length s + 1
          else m_end m in
        (if accept then [m] else []) ++
        allMatches fuel' re s p' (Some (m_end m))
      end
  end.

(** The text of group [i] of a match, empty when the group took no
    part in it. *)
Fixpoint group (i : nat) (cs : list (nat * (nat * nat))) (s : string)
  : string :=
  match cs with
  | [] => EmptyString
  | (j, (b, e)) :: cs' => if i =? j then slice b e s else group i cs' s
  end.

(** The slice of strings [FindStringSubmatch] builds from a match: the
    text of the whole match, then the text of each group. *)
Definition submatches (re : Regexp) (s : string) (m : Match) : list string :=
  slice (m_start m) (m_end m) s ::
  map (fun i => group i (m_caps m) s) (seq 1 (NumSubexp re)).

(** [re.FindAllStringSubmatch(s, -1)]. *)
Definition FindAllStringSubmatch (re : Regexp) (s : string)
  : list (list string) :=
  map (submatches re s) (allMatches (S (S (String.length s))) re s 0 None).

(** The Perl classes [\w] and [\d]. *)
Definition is_digit (a : ascii) : bool :=
  let c := byte a in ((48 <=? c) && (c <=? 57))%Z.

Definition is_word (a : ascii) : bool :=
  let c := byte a in
  (((48 <=? c) && (c <=? 57)) || ((65 <=? c) && (c <=? 90)) ||
   (c =? 95) || ((97 <=? c) && (c <=? 122)))%Z.

End regexp.

(* ================================================================= *)
(** * The timeout profile *)

Record Timeout := {
  Sleep : time.Duration;
  Waiting : time.Duration;
  Connection : time.Duration;
  Hello : time.Duration;
  Mail : time.Duration;
  Rcpt : time.Duration;
  Data : time.Duration
}.

(** One [if t.F == 0 { t.F = d }] statement of [Init]. *)
Definition default_to (d v : time.Duration) : time.Duration :=
  if v =? 0 then d else v.

(** [func (t *Timeout) Init()]: the receiver after the call. *)
Definition Timeout_Init (t : Timeout) : Timeout :=
  let t := if Sleep t =? 0
           then {| Sleep := time.Second; Waiting := Waiting t;
                   Connection := Connection t; Hello := Hello t;
                   Mail := Mail t; Rcpt := Rcpt t; Data := Data t |}
           else t in
  let t := if Waiting t =? 0
           then {| Sleep := Sleep t; Waiting := 30 * time.Second;
                   Connection := Connection t; Hello := Hello t;
                   Mail := Mail t; Rcpt := Rcpt t; Data := Data t |}
           else t in
  let t := if Connection t =? 0
           then {| Sleep := Sleep t; Waiting := Waiting t;
                   Connection := 5 * time.Minute; Hello := Hello t;
                   Mail := Mail t; Rcpt := Rcpt t; Data := Data t |}
           else t in
  let t := if Hello t =? 0
           then {| Sleep := Sleep t; Waiting := Waiting t;
                   Connection := Connection t; Hello := 5 * time.Minute;
                   Mail := Mail t; Rcpt := Rcpt t; Data := Data t |}
           else t in
  let t := if Mail t =? 0
           then {| Sleep := Sleep t; Waiting := Waiting t;
                   Connection := Connection t; Hello := Hello t;
                   Mail := 5 * time.Minute; Rcpt := Rcpt t; Data := Data t |}
           else t in
  let t := if Rcpt t =? 0
           then {| Sleep := Sleep t; Waiting := Waiting t;
                   Connection := Connection t; Hello := Hello t;
                   Mail := Mail t; Rcpt := 5 * time.Minute; Data := Data t |}
           else t in
  let t := if Data t =? 0
           then {| Sleep := Sleep t; Waiting := Waiting t;
                   Connection := Connection t; Hello := Hello t;
                   Mail := Mail t; Rcpt := Rcpt t; Data := 10 * time.Minute |}
           else t in
  t.

(** The documented defaults, in nanoseconds. *)
Definition one_second : Z := 1000000000.
Definition thirty_seconds : Z := 30000000000.
Definition five_minutes : Z := 300000000000.
Definition ten_minutes : Z := 600000000000.

(** All seven fields differ from the zero duration. *)
Definition all_nonzero (t : Timeout) : Prop :=
  Sleep t <> 0 /\ Waiting t <> 0 /\ Connection t <> 0 /\ Hello t <> 0 /\
  Mail t <> 0 /\ Rcpt t <> 0 /\ Data t <> 0.

(** The seven statements of [Init], one at a time. *)
Definition init_Sleep (t : Timeout) : Timeout :=
  if Sleep t =? 0
  then {| Sleep := time.Second; Waiting := Waiting t;
          Connection := Connection t; Hello := Hello t;
          Mail := Mail t; Rcpt := Rcpt t; Data := Data t |}
  else t.

Definition init_Waiting (t : Timeout) : Timeout :=
  if Waiting t =? 0
  then {| Sleep := Sleep t; Waiting := 30 * time.Second;
          Connection := Connection t; Hello := Hello t;
          Mail := Mail t; Rcpt := Rcpt t; Data := Data t |}
  else t.

Definition init_Connection (t : Timeout) : Timeout :=
  if Connection t =? 0
  then {| Sleep := Sleep t; Waiting := Waiting t;
          Connection := 5 * time.Minute; Hello := Hello t;
          Mail := Mail t; Rcpt := Rcpt t; Data := Data t |}
  else t.

Definition init_Hello (t : Timeout) : Timeout :=
  if Hello t =? 0
  then {| Sleep := Sleep t; Waiting := Waiting t;
          Connection := Connection t; Hello := 5 * time.Minute;
          Mail := Mail t; Rcpt := Rcpt t; Data := Data t |}
  else t.

Definition init_Mail (t : Timeout) : Timeout :=
  if Mail t =? 0
  then {| Sleep := Sleep t; Waiting := Waiting t;
          Connection := Connection t; Hello := Hello t;
          Mail := 5 * time.Minute; Rcpt := Rcpt t; Data := Data t |}
  else t.

Definition init_Rcpt (t : Timeout) : Timeout :=
  if Rcpt t =? 0
  then {| Sleep := Sleep t; Waiting := Waiting t;
          Connection := Connection t; Hello := Hello t;
          Mail := Mail t; Rcpt := 5 * time.Minute; Data := Data t |}
  else t.

Definition init_Data (t : Timeout) : Timeout :=
  if Data t =? 0
  then {| Sleep := Sleep t; Waiting := Waiting t;
          Connection := Connection t; Hello := Hello t;
          Mail := Mail t; Rcpt := Rcpt t; Data := 10 * time.Minute |}
  else t.

(* ================================================================= *)
(** * Errors, effects and panics *)

(** A Go [error] value, as built by [errors.New]; [nil] is [None] of
    [option error]. *)
Inductive error := errors_New (text : string).

(** [err.Error()]. *)
Definition Error_text (err : error) : string :=
  match err with
  | errors_New text => text
  end.

(** Modelled from the spec: the verdict type [SendEventResult] and its two
    values used by [ReturnMail] are declared outside [post.go]; the spec
    names them hard-error ([ErrorSendEventResult]) and retry-with-delay
    ([DelaySendEventResult]). *)
Inductive SendEventResult :=
| ErrorSendEventResult
| DelaySendEventResult.

(** Modelled from the spec: a protocol session ([event.Client.Worker]) is
    declared outside [post.go]; all that [ReturnMail] uses of it is its
    identity and its [Reset()] capability. *)
Definition Session := nat.

(** Modelled from the spec: the result channel of an event. *)
Definition Channel := nat.

(** What a call does to the world outside the message, in order. *)
Inductive Effect :=
| SessionReset (w : Session)                        (* [w.Reset()] *)
| ChannelSend (c : Channel) (v : SendEventResult).  (* [c <- v] *)

(** The outcome of running a piece of Go code: it returns a value, having
    added its effects to the trace, or it panics. *)
Inductive Outcome (A : Type) :=
| Returned (a : A) (trace : list Effect)
| Panicked (reason : string).

Arguments Returned {A} a trace.
Arguments Panicked {A} reason.

Definition Go (A : Type) : Type := list Effect -> Outcome A.

Definition ret {A : Type} (a : A) : Go A :=
  fun trace => Returned a trace.

Definition bind {A B : Type} (m : Go A) (f : A -> Go B) : Go B :=
  fun trace =>
    match m trace with
    | Returned a trace' => f a trace'
    | Panicked reason => Panicked reason
    end.

Notation "x <- m ;; f" := (bind m (fun x => f))
  (at level 61, m at next level, right associativity).
Notation "m ;;; f" := (bind m (fun _ => f))
  (at level 61, right associativity).

Definition perform (e : Effect) : Go unit :=
  fun trace => Returned tt (trace ++ [e]).

Definition panic {A : Type} (reason : string) : Go A :=
  fun _ => Panicked reason.

(** [l[i]]: a run-time panic when [i] is out of range. *)
Definition index {A : Type} (l : list A) (i : nat) : Go A :=
  match nth_error l i with
  | Some x => ret x
  | None => panic "index out of range"
  end.

(** [len(l)]. *)
Definition len {A : Type} (l : list A) : Z := Z.of_nat (List.length l).

(* ================================================================= *)
(** * The message *)

(** The tiers of the delayed queues ([DelayedBindingType]). *)
Inductive DelayedBindingType :=
| UnknownDelayedBinding
| SecondDelayedBinding
| ThirtySecondDelayedBinding
| MinuteDelayedBinding
| FiveMinutesDelayedBinding
| TenMinutesDelayedBinding
| TwentyMinutesDelayedBinding
| ThirtyMinutesDelayedBinding
| FortyMinutesDelayedBinding
| FiftyMinutesDelayedBinding
| HourDelayedBinding
| SixHoursDelayedBinding
| DayDelayedBinding
| NotSendDelayedBinding.

(** [MailError]; its fields are [Message] and [Code] in the source. *)
Record MailError := {
  MailError_Message : string;
  MailError_Code : Z
}.

Record MailMessage := {
  Id : Z;
  Envelope : string;
  Recipient : string;
  Body : string;
  HostnameFrom : string;
  HostnameTo : string;
  CreatedDate : time.Time;
  BindingType : DelayedBindingType;
  Error : option MailError
}.

(** [this.Error = e]. *)
Definition set_Error (this : MailMessage) (e : option MailError)
  : MailMessage :=
  {| Id := Id this; Envelope := Envelope this; Recipient := Recipient this;
     Body := Body this; HostnameFrom := HostnameFrom this;
     HostnameTo := HostnameTo this; CreatedDate := CreatedDate this;
     BindingType := BindingType this; Error := e |}.

(** [this.Id = v]. *)
Definition set_Id (this : MailMessage) (v : Z) : MailMessage :=
  {| Id := v; Envelope := Envelope this; Recipient := Recipient this;
     Body := Body this; HostnameFrom := HostnameFrom this;
     HostnameTo := HostnameTo this; CreatedDate := CreatedDate this;
     BindingType := BindingType this; Error := Error this |}.

(** [this.CreatedDate = v]. *)
Definition set_CreatedDate (this : MailMessage) (v : time.Time)
  : MailMessage :=
  {| Id := Id this; Envelope := Envelope this; Recipient := Recipient this;
     Body := Body this; HostnameFrom := HostnameFrom this;
     HostnameTo := HostnameTo this; CreatedDate := v;
     BindingType := BindingType this; Error := Error this |}.

(** [this.HostnameFrom = v]. *)
Definition set_HostnameFrom (this : MailMessage) (v : string) : MailMessage :=
  {| Id := Id this; Envelope := Envelope this; Recipient := Recipient this;
     Body := Body this; HostnameFrom := v;
     HostnameTo := HostnameTo this; CreatedDate := CreatedDate this;
     BindingType := BindingType this; Error := Error this |}.

(** [this.HostnameTo = v]. *)
Definition set_HostnameTo (this : MailMessage) (v : string) : MailMessage :=
  {| Id := Id this; Envelope := Envelope this; Recipient := Recipient this;
     Body := Body this; HostnameFrom := HostnameFrom this;
     HostnameTo := v; CreatedDate := CreatedDate this;
     BindingType := BindingType this; Error := Error this |}.

(* ================================================================= *)
(** * The address pattern *)

Definition is_char (c : ascii) (a : ascii) : bool := Ascii.eqb a c.

(** The class [[\w\d\.\_\%\+\-]] of the local part. *)
Definition local_class (a : ascii) : bool :=
  regexp.is_word a || regexp.is_digit a || is_char "." a || is_char "_" a ||
  is_char "%" a || is_char "+" a || is_char "-" a.

(** The class [[\w\d\.\-]] of the domain. *)
Definition domain_class (a : ascii) : bool :=
  regexp.is_word a || regexp.is_digit a || is_char "." a || is_char "-" a.

(** [EmailRegexp], the pattern
    [^[\w\d\.\_\%\+\-]+@([\w\d\.\-]+\.\w{2,4})$]. *)
Definition EmailRegexp : regexp.Regexp :=
  regexp.Concat regexp.BeginText
    (regexp.Concat (regexp.Plus local_class)
      (regexp.Concat (regexp.Literal "@")
        (regexp.Concat
          (regexp.Capture 1
            (regexp.Concat (regexp.Plus domain_class)
              (regexp.Concat (regexp.Literal ".")
                (regexp.Repeat regexp.is_word 2 4))))
          regexp.EndText))).

(** [func (this *MailMessage) getHostnameFromEmail(email string)
    (string, error)]; the receiver is not used. *)
Definition getHostnameFromEmail (email : string) : string * option error :=
  let matches := regexp.FindAllStringSubmatch EmailRegexp email in
  if (len matches =? 1) && (len (nth 0 matches []) =? 2)
  then (nth 1 (nth 0 matches []) EmptyString, None)
  else (EmptyString, Some (errors_New "invalid email address")).

(** [func (this *MailMessage) Init()]: the message after the call, and the
    clock after the two calls of [time.Now()]. *)
Definition MailMessage_Init (this : MailMessage) (clock : time.Clock)
  : MailMessage * time.Clock :=
  let (now, clock) := time.Now clock in
  let this := set_Id this (time.UnixNano now) in
  let (now, clock) := time.Now clock in
  let this := set_CreatedDate this now in
  let this :=
    let (hostname, err) := getHostnameFromEmail (Envelope this) in
    match err with
    | None => set_HostnameFrom this hostname
    | Some _ => this
    end in
  let this :=
    let (hostname, err) := getHostnameFromEmail (Recipient this) in
    match err with
    | None => set_HostnameTo this hostname
    | Some _ => this
    end in
  (this, clock).

(* ================================================================= *)
(** * The event of a delivery attempt and [ReturnMail] *)

(** Modelled from the spec: the client of an event ([SmtpClient]) is
    declared outside [post.go]; [ReturnMail] reads its field [Worker],
    which may be nil. *)
Record SmtpClient := {
  Worker : option Session
}.

(** Modelled from the spec: [SendEvent] is declared outside [post.go].
    The spec's failed-attempt event bundles a message, an optional
    session handle and a result channel; [ReturnMail] reads the fields
    [Message], [Client] (may be nil) and [Result].  [Message] stands for
    the message the event points to: an assignment through
    [event.Message] is an update of this field. *)
Record SendEvent := {
  Client : option SmtpClient;
  Message : MailMessage;
  Result : Channel
}.

(** [event.Message.Error = e]. *)
Definition set_Message_Error (event : SendEvent) (e : option MailError)
  : SendEvent :=
  {| Client := Client event;
     Message := set_Error (Message event) e;
     Result := Result event |}.

(** [w.Reset()]. *)
Definition Reset (w : Session) : Go unit := perform (SessionReset w).

(** [c <- v]. *)
Definition send (c : Channel) (v : SendEventResult) : Go unit :=
  perform (ChannelSend c v).

(** [func ReturnMail(event *SendEvent, err error)]: the event after the
    call. *)
Definition ReturnMail (event : SendEvent) (err : option error)
  : Go SendEvent :=
  event <-
    match err with
    | Some err =>
      let errorMessage := Error_text err in
      let parts := strings.Split errorMessage " " in
      if 0 <? len parts
      then
        part0 <- index parts 0 ;;
        let (code, e) := strconv.Atoi (strings.TrimSpace part0) in
        match e with
        | None =>
          ret (set_Message_Error event
                 (Some {| MailError_Message := errorMessage;
                          MailError_Code := code |}))
        | Some _ => ret event
        end
      else ret event
    | None => ret event
    end ;;
  match Client event with
  | Some client =>
    match Worker client with
    | Some worker => Reset worker
    | None => ret tt
    end
  | None => ret tt
  end ;;;
  match Error (Message event) with
  | None => send (Result event) DelaySendEventResult
  | Some _ => send (Result event) ErrorSendEventResult
  end ;;;
  ret event.

(* ================================================================= *)
(** * Observations on a run of [ReturnMail] *)

(** The verdicts written, with their channels, in order. *)
Fixpoint sends (trace : list Effect) : list (Channel * SendEventResult) :=
  match trace with
  | [] => []
  | ChannelSend c v :: trace' => (c, v) :: sends trace'
  | SessionReset _ :: trace' => sends trace'
  end.

(** The sessions reset, in order. *)
Fixpoint resets (trace : list Effect) : list Session :=
  match trace with
  | [] => []
  | SessionReset w :: trace' => w :: resets trace'
  | ChannelSend _ _ :: trace' => resets trace'
  end.

(** The session an event carries: a client that is not nil, with a worker
    that is not nil. *)
Definition session_of (event : SendEvent) : option Session :=
  match Client event with
  | Some client => Worker client
  | None => None
  end.

(** The verdict that goes with a message. *)
Definition verdict_for (m : MailMessage) : SendEventResult :=
  match Error m with
  | Some _ => ErrorSendEventResult
  | None => DelaySendEventResult
  end.

(** The bytes of [s] that precede its first space (U+0020), all of [s]
    when it has none. *)
Fixpoint before_space (s : string) : string :=
  match s with
  | EmptyString => EmptyString
  | String a s' =>
    if Ascii.eqb a " " then EmptyString else String a (before_space s')
  end.

(** The classified error that lines 141 to 152 of the source build from a
    raw error, if they build one. *)
Definition classified (err : option error) : option MailError :=
  match err with
  | Some e =>
    let text := Error_text e in
    match strconv.Atoi (strings.TrimSpace (before_space text)) with
    | (code, None) =>
      Some {| MailError_Message := text; MailError_Code := code |}
    | (_, Some _) => None
    end
  | None => None
  end.

(** A message as it is before any delivery attempt. *)
Definition new_message (envelope recipient body : string) : MailMessage :=
  {| Id := 0; Envelope := envelope; Recipient := recipient; Body := body;
     HostnameFrom := EmptyString; HostnameTo := EmptyString;
     CreatedDate := {| time.sec := 0; time.nsec := 0 |};
     BindingType := UnknownDelayedBinding; Error := None |}.

(** What the second statement of [ReturnMail] does. *)
Definition session_effects (event : SendEvent) : list Effect :=
  match session_of event with
  | Some w => [SessionReset w]
  | None => []
  end.

(** The event after the first statement of [ReturnMail]. *)
Definition after_classification (event : SendEvent) (err : option error)
  : SendEvent :=
  match classified err with
  | Some e => set_Message_Error event (Some e)
  | None => event
  end.

(* ================================================================= *)
(** * The address pattern, declaratively *)

(** The result of the parser on an address it rejects. *)
Definition InvalidAddress : string * option error :=
  (EmptyString, Some (errors_New "invalid email address")).

(** The first thread of the pattern, at the start of [s]. *)
Definition start_thread (s : string) : regexp.Thread :=
  {| regexp.rest := s; regexp.pos := 0%nat; regexp.caps := [] |}.

(** The number of occurrences of the byte [c] in [s]. *)
Fixpoint count_byte (c : ascii) (s : string) : nat :=
  match s with
  | EmptyString => 0%nat
  | String a s' => ((if Ascii.eqb a c then 1 else 0) + count_byte c s')%nat
  end.

(** The addresses the pattern of the source matches, and the domain it
    captures: a local part, [@], and a domain made of a body, a dot and a
    top-level label. *)
Definition address_of (local body tld : string) : string :=
  local ++ "@" ++ body ++ "." ++ tld.

Definition well_formed (local body tld : string) : Prop :=
  local <> EmptyString /\ all_bytes local_class local = true /\
  body <> EmptyString /\ all_bytes domain_class body = true /\
  (2 <= String.length tld <= 4)%nat /\ all_bytes regexp.is_word tld = true.

(** The declarative reading of the patterns of [regexp]: [Matches r t t']
    when [r] can take the thread [t] to the thread [t']. *)
Inductive Matches : regexp.Regexp -> regexp.Thread -> regexp.Thread -> Prop :=
| M_BeginText t :
    regexp.pos t = 0%nat -> Matches regexp.BeginText t t
| M_EndText t :
    regexp.rest t = EmptyString -> Matches regexp.EndText t t
| M_Literal c s t :
    regexp.rest t = String c s ->
    Matches (regexp.Literal c) t (regexp.moved t s (S (regexp.pos t)))
| M_CharClass cls a s t :
    regexp.rest t = String a s -> cls a = true ->
    Matches (regexp.CharClass cls) t (regexp.moved t s (S (regexp.pos t)))
| M_Plus cls w s t :
    regexp.rest t = w ++ s -> w <> EmptyString -> all_bytes cls w = true ->
    Matches (regexp.Plus cls) t
      (regexp.moved t s (regexp.pos t + String.length w)%nat)
| M_Repeat cls min max w s t :
    regexp.rest t = w ++ s ->
    (min <= String.length w <= max)%nat -> all_bytes cls w = true ->
    Matches (regexp.Repeat cls min max) t
      (regexp.moved t s (regexp.pos t + String.length w)%nat)
| M_Concat r1 r2 t t1 t2 :
    Matches r1 t t1 -> Matches r2 t1 t2 ->
    Matches (regexp.Concat r1 r2) t t2
| M_Capture i r t t' :
    Matches r t t' ->
    Matches (regexp.Capture i r) t
      {| regexp.rest := regexp.rest t'; regexp.pos := regexp.pos t';
         regexp.caps := (i, (regexp.pos t, regexp.pos t')) :: regexp.caps t' |}.

(* ================================================================= *)
(** * The wording of the specification *)

(** The ASCII white space. *)
Definition is_white (a : ascii) : bool :=
  let c := byte a in ((9 <=? c) && (c <=? 13)) || (c =? 32).

(** Follows the spec's words (Failure Classifier): the text is split on
    white space and the first token delimited by white space is
    inspected. *)
Fixpoint spec_first_token (s : string) : string :=
  match s with
  | EmptyString => EmptyString
  | String a s' =>
    if is_white a then EmptyString else String a (spec_first_token s')
  end.

(** Follows the spec's words (Failure Classifier): if the first token,
    trimmed, parses as an integer, the classified error is the full text
    with the parsed code; otherwise there is none. *)
Definition spec_classifier (text : string) : option MailError :=
  match strconv.Atoi (strings.TrimSpace (spec_first_token text)) with
  | (code, None) =>
    Some {| MailError_Message := text; MailError_Code := code |}
  | (_, Some _) => None
  end.

(** Follows the spec's words (invariant of the message): the raw error
    text of the attempt began with a parseable integer token. *)
Definition spec_begins_with_integer (err : option error) : bool :=
  match err with
  | Some e =>
    match spec_classifier (Error_text e) with
    | Some _ => true
    | None => false
    end
  | None => false
  end.

(** A letter. *)
Definition is_letter (a : ascii) : bool :=
  let c := byte a in
  ((65 <=? c) && (c <=? 90)) || ((97 <=? c) && (c <=? 122)).

(** A character of a label of a domain: a word character, a digit or a
    hyphen. *)
Definition label_class (a : ascii) : bool :=
  regexp.is_word a || regexp.is_digit a || is_char "-" a.

Definition nonempty (s : string) : bool :=
  match s with
  | EmptyString => false
  | String _ _ => true
  end.

Definition length_between (lo hi : nat) (s : string) : bool :=
  ((lo <=? String.length s) && (String.length s <=? hi))%nat.

(** Follows the spec's words (Address Parser): a domain is labels
    separated by dots, the last of them a top-level label of two to four
    letters. *)
Definition spec_domain (domain : string) : bool :=
  let labels := strings.Split domain "." in
  let tld := last labels EmptyString in
  (2 <=? List.length labels)%nat &&
  forallb (fun l => nonempty l && all_bytes label_class l) labels &&
  length_between 2 4 tld && all_bytes is_letter tld.

(** Follows the spec's words (Address Parser): the address is matched
    against local-part [@] domain; on exactly one match the result is the
    domain, otherwise the address is invalid ([None]). *)
Definition spec_address_parser (address : string) : option string :=
  match strings.Split address "@" with
  | [local; domain] =>
    if nonempty local && all_bytes local_class local && spec_domain domain
    then Some domain
    else None
  | _ => None
  end.

(** Follows the spec's words (C2): after the call the error of the message
    is set exactly when the raw error of this attempt began with a
    parseable integer token. *)
Definition error_iff_latest_attempt (event : SendEvent) (err : option error)
  : Prop :=
  forall event' trace',
    ReturnMail event err [] = Returned event' trace' ->
    (Error (Message event') <> None <-> spec_begins_with_integer err = true).

(** Follows the spec's words (C3): what the classifier attaches to a
    message is the classification of the first token delimited by white
    space. *)
Definition classifier_follows_spec (event : SendEvent) (text : string)
  : Prop :=
  forall event' trace',
    ReturnMail event (Some (errors_New text)) [] = Returned event' trace' ->
    Error (Message event') = spec_classifier text.

(** Follows the spec's words (C6): the parser returns the domain of an
    address that matches the pattern as the spec words it, and fails on
    every other address. *)
Definition parser_follows_spec (address : string) : Prop :=
  getHostnameFromEmail address =
  match spec_address_parser address with
  | Some domain => (domain, None)
  | None => InvalidAddress
  end.

(* ================================================================= *)
(** * Successive attempts and classes of bytes *)

(** Successive calls of [ReturnMail] on one event, one call for each
    failed attempt, with the raw errors [errs] in order. *)
Fixpoint attempts (errs : list (option error)) (event : SendEvent)
  : Go SendEvent :=
  match errs with
  | [] => ret event
  | err :: errs' =>
    event' <- ReturnMail event err ;;
    attempts errs' event'
  end.

(** A byte that may occur in an address the pattern matches: a byte of
    the class of the local part, or [@]. *)
Definition address_class (a : ascii) : bool :=
  local_class a || is_char "@" a.

(** An ASCII byte that is no white space. *)
Definition is_plain (a : ascii) : bool :=
  (byte a <? utf8.RuneSelf) && negb (unicode.IsSpace (byte a)).

(** The text after the last dot of [s], all of [s] when it has no dot. *)
Definition last_label (s : string) : string :=
  last (strings.Split s ".") EmptyString.

(** Every field is a duration that is not negative. *)
Definition no_negative (t : Timeout) : Prop :=
  0 <= Sleep t < 2 ^ 63 /\ 0 <= Waiting t < 2 ^ 63 /\
  0 <= Connection t < 2 ^ 63 /\ 0 <= Hello t < 2 ^ 63 /\
  0 <= Mail t < 2 ^ 63 /\ 0 <= Rcpt t < 2 ^ 63 /\ 0 <= Data t < 2 ^ 63.

(** Every field is a duration that is positive. *)
Definition all_positive (t : Timeout) : Prop :=
  0 < Sleep t < 2 ^ 63 /\ 0 < Waiting t < 2 ^ 63 /\
  0 < Connection t < 2 ^ 63 /\ 0 < Hello t < 2 ^ 63 /\
  0 < Mail t < 2 ^ 63 /\ 0 < Rcpt t < 2 ^ 63 /\ 0 < Data t < 2 ^ 63.

(* ================================================================= *)
(** * Sample inputs *)

(** An event with a session and a message that carries no error. *)
Definition fresh_event : SendEvent :=
  {| Client := Some {| Worker := Some 1%nat |};
     Message := new_message "a@x.com" "b@y.org" "hello";
     Result := 0%nat |}.

(** The same event after an attempt that ended in [421 try again later]. *)
Definition stale_event : SendEvent :=
  set_Message_Error fresh_event
    (Some {| MailError_Message := "421 try again later";
             MailError_Code := 421 |}).

(** A raw error whose code is followed by a tab. *)
Definition tabbed_text : string :=
  "550" ++ String "009"%char "mailbox unavailable".

(** A clock that reads one second past the Unix epoch, then two seconds
    past it from the second reading on. *)
Definition sample_clock : time.Clock :=
  {| time.reading := fun n =>
       {| time.sec := if (n =? 0)%nat then 62135596801 else 62135596802;
          time.nsec := 0 |};
     time.reads := 0 |}.

(* ================================================================= *)
(** * The timeout profile: proofs *)

Lemma Timeout_Init_steps (t : Timeout) :
  Timeout_Init t =
  init_Data (init_Rcpt (init_Mail (init_Hello
    (init_Connection (init_Waiting (init_Sleep t)))))).
Proof. reflexivity. Qed.

Ltac init_step f v :=
  unfold f, default_to; simpl; destruct (v =? 0); reflexivity.

Lemma Timeout_Init_fields (t : Timeout) :
  Timeout_Init t =
  {| Sleep := default_to one_second (Sleep t);
     Waiting := default_to thirty_seconds (Waiting t);
     Connection := default_to five_minutes (Connection t);
     Hello := default_to five_minutes (Hello t);
     Mail := default_to five_minutes (Mail t);
     Rcpt := default_to five_minutes (Rcpt t);
     Data := default_to ten_minutes (Data t) |}.
Proof.
  rewrite Timeout_Init_steps.
  destruct t as [s w c h m r d]; simpl.
  replace (init_Sleep (Build_Timeout s w c h m r d))
    with (Build_Timeout (default_to one_second s) w c h m r d)
    by init_step init_Sleep s.
  generalize (default_to one_second s); intros s'.
  replace (init_Waiting (Build_Timeout s' w c h m r d))
    with (Build_Timeout s' (default_to thirty_seconds w) c h m r d)
    by init_step init_Waiting w.
  generalize (default_to thirty_seconds w); intros w'.
  replace (init_Connection (Build_Timeout s' w' c h m r d))
    with (Build_Timeout s' w' (default_to five_minutes c) h m r d)
    by init_step init_Connection c.
  generalize (default_to five_minutes c); intros c'.
  replace (init_Hello (Build_Timeout s' w' c' h m r d))
    with (Build_Timeout s' w' c' (default_to five_minutes h) m r d)
    by init_step init_Hello h.
  generalize (default_to five_minutes h); intros h'.
  replace (init_Mail (Build_Timeout s' w' c' h' m r d))
    with (Build_Timeout s' w' c' h' (default_to five_minutes m) r d)
    by init_step init_Mail m.
  generalize (default_to five_minutes m); intros m'.
  replace (init_Rcpt (Build_Timeout s' w' c' h' m' r d))
    with (Build_Timeout s' w' c' h' m' (default_to five_minutes r) d)
    by init_step init_Rcpt r.
  generalize (default_to five_minutes r); intros r'.
  init_step init_Data d.
Qed.

Lemma default_to_nonzero (d v : Z) : d <> 0 -> default_to d v <> 0.
Proof.
  unfold default_to; intros Hd.
  destruct (Z.eqb_spec v 0); assumption.
Qed.

Lemma default_to_keeps (d v : Z) : v <> 0 -> default_to d v = v.
Proof.
  unfold default_to; intros Hv.
  destruct (Z.eqb_spec v 0); [contradiction | reflexivity].
Qed.

Lemma default_to_zero (d : Z) : default_to d 0 = d.
Proof. reflexivity. Qed.

Lemma default_to_twice (d v : Z) :
  d <> 0 -> default_to d (default_to d v) = default_to d v.
Proof.
  intros Hd. apply default_to_keeps, default_to_nonzero, Hd.
Qed.

(** ** C7 *)

(** C7: [Timeout.Init] gives each zero-valued field its documented
    default (Sleep 1s, Waiting 30s, Connection 5m, Hello 5m, Mail 5m,
    Rcpt 5m, Data 10m), leaves every non-zero field as it is, leaves all
    seven fields non-zero, and a second call changes nothing. *)
Theorem Timeout_Init_defaults_idempotent (t : Timeout) :
  let t' := Timeout_Init t in
  (Sleep t' = if Sleep t =? 0 then one_second else Sleep t) /\
  (Waiting t' = if Waiting t =? 0 then thirty_seconds else Waiting t) /\
  (Connection t' = if Connection t =? 0 then five_minutes else Connection t) /\
  (Hello t' = if Hello t =? 0 then five_minutes else Hello t) /\
  (Mail t' = if Mail t =? 0 then five_minutes else Mail t) /\
  (Rcpt t' = if Rcpt t =? 0 then five_minutes else Rcpt t) /\
  (Data t' = if Data t =? 0 then ten_minutes else Data t) /\
  all_nonzero t' /\
  Timeout_Init t' = t'.
Proof.
  cbv zeta.
  rewrite (Timeout_Init_fields (Timeout_Init t)).
  rewrite (Timeout_Init_fields t); simpl.
  repeat (split; [reflexivity |]).
  split.
  - unfold all_nonzero; simpl.
    repeat split; apply default_to_nonzero; discriminate.
  - rewrite !default_to_twice by discriminate. reflexivity.
Qed.

(* ================================================================= *)
(** * The library models: the loops end and the parsed code fits [int] *)

Section Library_facts.

Local Open Scope nat_scope.

Lemma DecodeRuneInString_width (a : ascii) (s : string) :
  1 <= snd (utf8.DecodeRuneInString (String a s)) <= 4.
Proof.
  unfold utf8.DecodeRuneInString.
  repeat match goal with
         | |- context [if ?c then _ else _] => destruct c
         | |- context [match ?x with _ => _ end] => destruct x
         end; simpl; lia.
Qed.

Lemma back_len_positive (steps : nat) :
  forall (before : string) (len : nat),
    2 <= len -> 1 <= utf8.back_len steps before len.
Proof.
  induction steps as [| steps IH]; intros [| a before] len Hlen; simpl;
    try lia.
  destruct (utf8.RuneStart a); [lia | apply IH; lia].
Qed.

Lemma rev_string_not_empty (a : ascii) (s : string) :
  rev_string (String a s) <> EmptyString.
Proof.
  simpl. destruct (rev_string s); discriminate.
Qed.

Lemma DecodeLastRuneInString_width (a : ascii) (s : string) :
  1 <= snd (utf8.DecodeLastRuneInString (String a s)).
Proof.
  unfold utf8.DecodeLastRuneInString.
  pose proof (rev_string_not_empty a s) as Hne.
  destruct (rev_string (String a s)) as [| b before];
    [contradiction Hne; reflexivity |].
  destruct (byte b <? utf8.RuneSelf)%Z; [simpl; lia |].
  cbv zeta.
  pose proof (back_len_positive (utf8.UTFMax - 1) before (len := 2)
                (le_n 2)) as Hlen.
  destruct (utf8.DecodeRuneInString _) as [r size].
  destruct (Nat.eqb_spec size (utf8.back_len (utf8.UTFMax - 1) before 2));
    simpl; lia.
Qed.

Lemma length_drop (n : nat) :
  forall s : string, String.length (drop n s) = String.length s - n.
Proof.
  induction n as [| n IH]; intros [| a s]; simpl; auto.
Qed.

(** The forward loop of [TrimLeftFunc] ends within [length s] turns: more
    fuel does not change its result. *)
Lemma indexFunc_fuel (f : Z -> bool) (fuel1 : nat) :
  forall (fuel2 : nat) (s : string) (i : nat),
    String.length s <= fuel1 -> String.length s <= fuel2 ->
    strings.indexFunc fuel1 f s i = strings.indexFunc fuel2 f s i.
Proof.
  induction fuel1 as [| fuel1 IH]; intros fuel2 [| a s] i H1 H2;
    simpl in H1; try lia.
  - destruct fuel2; reflexivity.
  - destruct fuel2; reflexivity.
  - destruct fuel2 as [| fuel2]; [simpl in H2; lia |].
    cbn [strings.indexFunc].
    pose proof (DecodeRuneInString_width a s) as Hw.
    destruct (utf8.DecodeRuneInString (String a s)) as [r w].
    simpl in Hw, H2.
    destruct (f r); [| reflexivity].
    apply IH; rewrite length_drop; cbn [String.length]; lia.
Qed.

(** The backward loop of [TrimRightFunc] ends within [i] turns. *)
Lemma lastIndexFunc_fuel (f : Z -> bool) (s : string) (fuel1 : nat) :
  forall fuel2 i : nat,
    i <= fuel1 -> i <= fuel2 -> i <= String.length s ->
    strings.lastIndexFunc fuel1 f s i = strings.lastIndexFunc fuel2 f s i.
Proof.
  induction fuel1 as [| fuel1 IH]; intros fuel2 [| i] H1 H2 Hs; try lia.
  - destruct fuel2; reflexivity.
  - destruct fuel2; reflexivity.
  - destruct fuel2 as [| fuel2]; [lia |].
    cbn [strings.lastIndexFunc Nat.eqb].
    destruct s as [| a s]; [simpl in Hs; lia |].
    cbn [take].
    pose proof (DecodeLastRuneInString_width a (take i s)) as Hw.
    destruct (utf8.DecodeLastRuneInString (String a (take i s)))
      as [r size].
    simpl in Hw. cbv zeta.
    destruct (f r); [| reflexivity].
    apply IH; lia.
Qed.

Local Open Scope Z_scope.

Lemma digits_bounds (s : string) :
  forall n u : Z, 0 <= n -> strconv.digits s n = Some u -> 0 <= u.
Proof.
  induction s as [| a s IH]; intros n u Hn H; simpl in H.
  - injection H as <-. exact Hn.
  - unfold strconv.digit in H.
    destruct ((48 <=? byte a) && (byte a <=? 57)) eqn:Hd; [| discriminate].
    eapply IH; [| exact H]. lia.
Qed.

(** A code that [Atoi] returns without error is within the range of
    [int]. *)
Lemma Atoi_range (s : string) :
  snd (strconv.Atoi s) = None ->
  - 2 ^ 63 <= fst (strconv.Atoi s) < 2 ^ 63.
Proof.
  unfold strconv.Atoi, strconv.IntSize.
  destruct s as [| a s]; [discriminate |].
  cbv zeta.
  destruct (if (a =? "+")%char || (a =? "-")%char then s else String a s)
    as [| b s1] eqn:Hs1; [discriminate |].
  destruct (strconv.digits (String b s1) 0) as [un |] eqn:Hd; [| discriminate].
  apply digits_bounds in Hd; [| lia].
  change (2 ^ (64 - 1)) with 9223372036854775808.
  change (2 ^ 63) with 9223372036854775808.
  destruct (a =? "-")%char; simpl negb; simpl andb.
  - destruct (Z.ltb_spec 9223372036854775808 un); simpl; [discriminate |].
    intros _. lia.
  - destruct (Z.leb_spec 9223372036854775808 un); simpl; [discriminate |].
    intros _. lia.
Qed.

End Library_facts.

(* ================================================================= *)
(** * [ReturnMail] *)

Section ReturnMail_facts.

Lemma Split_not_nil (s : string) (sep : ascii) : strings.Split s sep <> [].
Proof.
  induction s as [| a s IH]; simpl.
  - discriminate.
  - destruct (Ascii.eqb a sep); [discriminate |].
    destruct (strings.Split s sep); discriminate.
Qed.

(** The first piece of a split on the space is what precedes the first
    space. *)
Lemma Split_space_head (s : string) :
  exists pieces, strings.Split s " " = before_space s :: pieces.
Proof.
  induction s as [| a s [pieces IH]]; simpl.
  - exists []; reflexivity.
  - destruct (Ascii.eqb a " ").
    + eexists; reflexivity.
    + rewrite IH. eexists; reflexivity.
Qed.

(** The guard [len(parts) > 0] holds and [parts[0]] is in range. *)
Lemma parts_guard (s : string) :
  (0 <? len (strings.Split s " ")) = true /\
  index (strings.Split s " ") 0 = ret (before_space s).
Proof.
  destruct (Split_space_head s) as [pieces ->].
  split; [| reflexivity].
  unfold len. apply Z.ltb_lt. simpl List.length. lia.
Qed.

(** The whole of a call. *)
Lemma ReturnMail_run (event : SendEvent) (err : option error)
  (trace : list Effect) :
  ReturnMail event err trace =
  Returned (after_classification event err)
    (trace ++ session_effects event ++
     [ChannelSend (Result event)
        (verdict_for (Message (after_classification event err)))]).
Proof.
  assert (Htail : forall ev : SendEvent,
    Client ev = Client event -> Result ev = Result event ->
    (match Client ev with
     | Some client =>
       match Worker client with
       | Some worker => Reset worker
       | None => ret tt
       end
     | None => ret tt
     end ;;;
     match Error (Message ev) with
     | None => send (Result ev) DelaySendEventResult
     | Some _ => send (Result ev) ErrorSendEventResult
     end ;;;
     ret ev) trace =
    Returned ev
      (trace ++ session_effects event ++
       [ChannelSend (Result event) (verdict_for (Message ev))])).
  { intros ev HC HR.
    unfold session_effects, session_of, verdict_for.
    rewrite HC, HR.
    unfold bind, Reset, send, perform, ret.
    destruct (Client event) as [[[w |]] |]; simpl;
      destruct (Error (Message ev)); simpl;
      rewrite <- ?app_assoc; reflexivity. }
  unfold ReturnMail, after_classification, classified.
  destruct err as [e |].
  - cbv zeta.
    destruct (parts_guard (Error_text e)) as [-> ->].
    unfold bind at 1 2. unfold ret at 1.
    destruct (strconv.Atoi (strings.TrimSpace (before_space (Error_text e))))
      as [code [ne |]]; unfold ret at 1; apply Htail; reflexivity.
  - unfold bind at 1. unfold ret at 1. apply Htail; reflexivity.
Qed.

Lemma sends_app (t1 t2 : list Effect) :
  sends (t1 ++ t2) = (sends t1 ++ sends t2)%list.
Proof.
  induction t1 as [| [w | c v] t1 IH]; simpl; [| | f_equal]; auto.
Qed.

Lemma resets_app (t1 t2 : list Effect) :
  resets (t1 ++ t2) = (resets t1 ++ resets t2)%list.
Proof.
  induction t1 as [| [w | c v] t1 IH]; simpl; [| f_equal |]; auto.
Qed.

Lemma sends_session_effects (event : SendEvent) :
  sends (session_effects event) = [].
Proof.
  unfold session_effects. destruct (session_of event); reflexivity.
Qed.

Lemma resets_session_effects (event : SendEvent) :
  resets (session_effects event) =
  match session_of event with
  | Some w => [w]
  | None => []
  end.
Proof.
  unfold session_effects. destruct (session_of event); reflexivity.
Qed.

Lemma after_classification_fields (event : SendEvent) (err : option error) :
  let m := Message event in
  let m' := Message (after_classification event err) in
  Client (after_classification event err) = Client event /\
  Result (after_classification event err) = Result event /\
  Id m' = Id m /\ Envelope m' = Envelope m /\ Recipient m' = Recipient m /\
  Body m' = Body m /\ HostnameFrom m' = HostnameFrom m /\
  HostnameTo m' = HostnameTo m /\ CreatedDate m' = CreatedDate m /\
  BindingType m' = BindingType m.
Proof.
  unfold after_classification.
  destruct (classified err); simpl; repeat split; reflexivity.
Qed.

Lemma after_classification_Error (event : SendEvent) (err : option error) :
  Error (Message (after_classification event err)) =
  match classified err with
  | Some e => Some e
  | None => Error (Message event)
  end.
Proof.
  unfold after_classification. destruct (classified err); reflexivity.
Qed.

End ReturnMail_facts.

Example ReturnMail_421 :
  ReturnMail fresh_event (Some (errors_New "421 try again later")) [] =
  Returned stale_event
    [SessionReset 1%nat; ChannelSend 0%nat ErrorSendEventResult].
Proof. reflexivity. Qed.

Example ReturnMail_timeout :
  ReturnMail fresh_event (Some (errors_New "timeout")) [] =
  Returned fresh_event
    [SessionReset 1%nat; ChannelSend 0%nat DelaySendEventResult].
Proof. reflexivity. Qed.

(** A tab does not end the first piece: no code is found. *)
Example ReturnMail_code_then_tab :
  ReturnMail fresh_event (Some (errors_New tabbed_text)) [] =
  Returned fresh_event
    [SessionReset 1%nat; ChannelSend 0%nat DelaySendEventResult].
Proof. reflexivity. Qed.

(** White space around the first piece is trimmed before it is parsed. *)
Example ReturnMail_code_after_tab :
  ReturnMail fresh_event
    (Some (errors_New (String "009"%char "550 mailbox unavailable"))) [] =
  Returned
    (set_Message_Error fresh_event
       (Some {| MailError_Message :=
                  String "009"%char "550 mailbox unavailable";
                MailError_Code := 550 |}))
    [SessionReset 1%nat; ChannelSend 0%nat ErrorSendEventResult].
Proof. reflexivity. Qed.

(** A code with a continuation mark is no integer. *)
Example ReturnMail_code_with_hyphen :
  ReturnMail fresh_event (Some (errors_New "550-5.1.1 no such user")) [] =
  Returned fresh_event
    [SessionReset 1%nat; ChannelSend 0%nat DelaySendEventResult].
Proof. reflexivity. Qed.

(** ** C1 *)

(** C1: for every failed-attempt event, [ReturnMail] writes exactly one
    verdict, on the result channel of the event: [ErrorSendEventResult]
    when the message carries a classified error after the classification
    step, [DelaySendEventResult] otherwise. *)
Theorem ReturnMail_verdict (event : SendEvent) (err : option error)
  (trace : list Effect) :
  exists event' effects,
    ReturnMail event err trace = Returned event' (trace ++ effects) /\
    sends effects =
    [(Result event,
      match Error (Message event') with
      | Some _ => ErrorSendEventResult
      | None => DelaySendEventResult
      end)].
Proof.
  rewrite ReturnMail_run.
  eexists; eexists; split; [reflexivity |].
  rewrite sends_app, sends_session_effects. reflexivity.
Qed.

(** ** C2 *)

(** C2, counterexample: a message that carries the classified error of an
    earlier attempt keeps it when the next attempt fails with [timeout],
    a text with no leading integer. *)
Lemma earlier_error_survives :
  ~ error_iff_latest_attempt stale_event (Some (errors_New "timeout")).
Proof.
  intros H.
  specialize (H _ _ eq_refl).
  destruct H as [H _].
  assert (Hset : Error (Message stale_event) <> None) by discriminate.
  specialize (H Hset). discriminate H.
Qed.

(** C2, as amended: after any call of [ReturnMail] the error of the
    message is the classification of the raw error of this attempt when
    there is one (it replaces an earlier one), and otherwise (nil raw
    error, or a first piece that does not parse as an integer) it is what
    it was before the call; so it is set exactly when this attempt was
    classified or an earlier classification was present. *)
Theorem ReturnMail_error_field (event : SendEvent) (err : option error)
  (trace : list Effect) :
  exists event' trace',
    ReturnMail event err trace = Returned event' trace' /\
    Error (Message event') =
      match classified err with
      | Some e => Some e
      | None => Error (Message event)
      end /\
    (Error (Message event') <> None <->
     classified err <> None \/ Error (Message event) <> None).
Proof.
  rewrite ReturnMail_run.
  eexists; eexists; split; [reflexivity |].
  rewrite after_classification_Error.
  split; [reflexivity |].
  destruct (classified err) as [e |].
  - split; intros _; [left |]; discriminate.
  - split.
    + intros H; right; exact H.
    + intros [H | H]; [contradiction H; reflexivity | exact H].
Qed.

(** ** C3 *)

(** C3, counterexample: in [550<TAB>mailbox unavailable] the first token
    delimited by white space is [550], yet the source, which splits on
    the space only, finds no code. *)
Lemma tab_after_code_not_classified :
  ~ classifier_follows_spec fresh_event tabbed_text.
Proof.
  intros H.
  specialize (H _ _ eq_refl).
  discriminate H.
Qed.

(** C3, as amended: the classifier splits the text on the space character
    (U+0020) only; if the first piece, that is the text before the first
    space, trimmed of surrounding white space, parses as a decimal
    integer, the message gets the classified error made of the full text
    and the parsed code; if not (the empty text included) the error of the
    message is left as it was, and the call returns normally.  So
    [550 mailbox unavailable] is classified with code 550 and
    [connection reset] is not classified. *)
Theorem classifier_splits_on_space :
  (forall (event : SendEvent) (text : string) (trace : list Effect),
     exists event' trace',
       ReturnMail event (Some (errors_New text)) trace =
       Returned event' trace' /\
       Error (Message event') =
       match strconv.Atoi (strings.TrimSpace (before_space text)) with
       | (code, None) =>
         Some {| MailError_Message := text; MailError_Code := code |}
       | (_, Some _) => Error (Message event)
       end) /\
  ReturnMail fresh_event (Some (errors_New "550 mailbox unavailable")) [] =
  Returned
    (set_Message_Error fresh_event
       (Some {| MailError_Message := "550 mailbox unavailable";
                MailError_Code := 550 |}))
    [SessionReset 1%nat; ChannelSend 0%nat ErrorSendEventResult] /\
  ReturnMail fresh_event (Some (errors_New "connection reset")) [] =
  Returned fresh_event
    [SessionReset 1%nat; ChannelSend 0%nat DelaySendEventResult] /\
  ReturnMail fresh_event (Some (errors_New "")) [] =
  Returned fresh_event
    [SessionReset 1%nat; ChannelSend 0%nat DelaySendEventResult].
Proof.
  split; [| repeat split; reflexivity].
  intros event text trace.
  rewrite ReturnMail_run.
  eexists; eexists; split; [reflexivity |].
  rewrite after_classification_Error.
  unfold classified; simpl Error_text.
  destruct (strconv.Atoi (strings.TrimSpace (before_space text)))
    as [code [e |]]; reflexivity.
Qed.

(** ** C4 *)

(** C4: [ReturnMail] returns normally for every event and every raw error,
    nil included: it does not panic, the index [0] is within the list of
    pieces of every text, a raw error that is not classified leaves the
    event as it was, and exactly one verdict is written. *)
Theorem ReturnMail_never_fails (event : SendEvent) (err : option error)
  (trace : list Effect) :
  (exists event' effects,
     ReturnMail event err trace = Returned event' (trace ++ effects) /\
     List.length (sends effects) = 1%nat /\
     (classified err = None -> event' = event)) /\
  (forall text : string, nth_error (strings.Split text " ") 0 <> None).
Proof.
  split.
  - rewrite ReturnMail_run.
    eexists; eexists; split; [reflexivity |].
    split.
    + rewrite sends_app, sends_session_effects. reflexivity.
    + unfold after_classification. intros ->. reflexivity.
  - intros text.
    destruct (Split_space_head text) as [pieces ->]. discriminate.
Qed.

(** ** C5 *)

(** C5: [ReturnMail] resets the session of an event that carries one (a
    client that is not nil, with a worker that is not nil) exactly once,
    whatever the raw error and the outcome of the classification, and
    resets nothing for an event without a session. *)
Theorem ReturnMail_resets_session_once (event : SendEvent)
  (err : option error) (trace : list Effect) :
  exists event' effects,
    ReturnMail event err trace = Returned event' (trace ++ effects) /\
    resets effects =
    match Client event with
    | Some client =>
      match Worker client with
      | Some worker => [worker]
      | None => []
      end
    | None => []
    end.
Proof.
  rewrite ReturnMail_run.
  eexists; eexists; split; [reflexivity |].
  rewrite resets_app, resets_session_effects.
  unfold session_of.
  destruct (Client event) as [[[w |]] |]; reflexivity.
Qed.

(** ** C9 *)

(** C9: [ReturnMail] leaves [BindingType] as it was, under either verdict,
    and changes no field of the message other than [Error]. *)
Theorem ReturnMail_frame (event : SendEvent) (err : option error)
  (trace : list Effect) :
  exists event' trace',
    ReturnMail event err trace = Returned event' trace' /\
    BindingType (Message event') = BindingType (Message event) /\
    Envelope (Message event') = Envelope (Message event) /\
    Recipient (Message event') = Recipient (Message event) /\
    Body (Message event') = Body (Message event) /\
    Id (Message event') = Id (Message event) /\
    CreatedDate (Message event') = CreatedDate (Message event) /\
    HostnameFrom (Message event') = HostnameFrom (Message event) /\
    HostnameTo (Message event') = HostnameTo (Message event).
Proof.
  rewrite ReturnMail_run.
  eexists; eexists; split; [reflexivity |].
  pose proof (after_classification_fields event err) as H.
  cbv zeta in H. intuition.
Qed.

(** ** C10 *)

(** C10: when the raw error is nil, [ReturnMail] leaves the event, and so
    the error of its message, exactly as it was, and the verdict is
    [ErrorSendEventResult] if the message already carried a classified
    error and [DelaySendEventResult] otherwise. *)
Theorem ReturnMail_nil_error (event : SendEvent) (trace : list Effect) :
  exists effects,
    ReturnMail event None trace = Returned event (trace ++ effects) /\
    sends effects =
    [(Result event,
      match Error (Message event) with
      | Some _ => ErrorSendEventResult
      | None => DelaySendEventResult
      end)].
Proof.
  rewrite ReturnMail_run.
  eexists; split; [reflexivity |].
  rewrite sends_app, sends_session_effects. reflexivity.
Qed.

(* ================================================================= *)
(** * Strings *)

Section String_facts.

Local Open Scope nat_scope.

Lemma append_empty_r (s : string) : s ++ EmptyString = s.
Proof. induction s as [| a s IH]; simpl; [| rewrite IH]; reflexivity. Qed.

Lemma append_assoc (a b c : string) : (a ++ b) ++ c = a ++ b ++ c.
Proof. induction a as [| x a IH]; simpl; [| rewrite IH]; reflexivity. Qed.

Lemma length_append (a b : string) :
  String.length (a ++ b) = String.length a + String.length b.
Proof. induction a as [| x a IH]; simpl; [| rewrite IH]; reflexivity. Qed.

Lemma drop_append (a b : string) : drop (String.length a) (a ++ b) = b.
Proof. induction a as [| x a IH]; simpl; [destruct b |]; auto. Qed.

Lemma take_length (s : string) : take (String.length s) s = s.
Proof. induction s as [| x s IH]; simpl; [| rewrite IH]; reflexivity. Qed.

Lemma drop_length (s : string) : drop (String.length s) s = EmptyString.
Proof. induction s as [| x s IH]; simpl; auto. Qed.

Lemma drop_zero (s : string) : drop 0 s = s.
Proof. destruct s; reflexivity. Qed.

Lemma slice_whole (s : string) : slice 0 (String.length s) s = s.
Proof.
  unfold slice. rewrite Nat.sub_0_r, drop_zero. apply take_length.
Qed.

Lemma slice_suffix (a b : string) :
  slice (String.length a) (String.length (a ++ b)) (a ++ b) = b.
Proof.
  unfold slice. rewrite drop_append, length_append.
  replace (String.length a + String.length b - String.length a)
    with (String.length b) by lia.
  apply take_length.
Qed.

Lemma all_bytes_append (p : ascii -> bool) (a b : string) :
  all_bytes p (a ++ b) = all_bytes p a && all_bytes p b.
Proof.
  induction a as [| x a IH]; simpl; [| rewrite IH, andb_assoc]; reflexivity.
Qed.

Lemma count_byte_append (c : ascii) (a b : string) :
  count_byte c (a ++ b) = count_byte c a + count_byte c b.
Proof.
  induction a as [| x a IH]; simpl; [| rewrite IH]; lia.
Qed.

(** A string all of whose bytes are in a class that excludes [c] does
    not contain [c]. *)
Lemma count_byte_outside (p : ascii -> bool) (c : ascii) (s : string) :
  p c = false -> all_bytes p s = true -> count_byte c s = 0.
Proof.
  intros Hc. induction s as [| x s IH]; simpl; [reflexivity |].
  intros H. apply andb_prop in H. destruct H as [Hx Hs].
  destruct (Ascii.eqb_spec x c) as [-> |]; [congruence |].
  rewrite IH by assumption. reflexivity.
Qed.

End String_facts.

(* ================================================================= *)
(** * The matcher agrees with the declarative reading *)

Section Matcher_facts.

Local Open Scope nat_scope.

Import regexp.

Lemma orelse_some (a b : option Thread) (t : Thread) :
  orelse a b = Some t -> a = Some t \/ (a = None /\ b = Some t).
Proof. destruct a; simpl; intros H; [left | right]; auto. Qed.

Lemma orelse_left (a b : option Thread) : a <> None -> orelse a b <> None.
Proof. destruct a; simpl; intros H; [discriminate | contradiction]. Qed.

Lemma orelse_right (a b : option Thread) : b <> None -> orelse a b <> None.
Proof. destruct a; simpl; intros H; [discriminate | assumption]. Qed.

Lemma star_sound (cls : ascii -> bool) (k : string -> nat -> option Thread)
  (s : string) :
  forall (p : nat) (res : Thread),
    star cls k s p = Some res ->
    exists w s', s = w ++ s' /\ all_bytes cls w = true /\
                 k s' (p + String.length w) = Some res.
Proof.
  induction s as [| a s IH]; intros p res H; simpl in H.
  - exists EmptyString, EmptyString. rewrite Nat.add_0_r. auto.
  - destruct (cls a) eqn:Ha.
    + apply orelse_some in H. destruct H as [H | [_ H]].
      * apply IH in H. destruct H as (w & s' & -> & Hw & Hk).
        exists (String a w), s'. simpl. rewrite Ha, Hw.
        rewrite Nat.add_succ_r. auto.
      * exists EmptyString, (String a s). rewrite Nat.add_0_r. auto.
    + exists EmptyString, (String a s). rewrite Nat.add_0_r. auto.
Qed.

Lemma star_complete (cls : ascii -> bool)
  (k : string -> nat -> option Thread) (w s' : string) :
  forall p : nat,
    all_bytes cls w = true ->
    k s' (p + String.length w) <> None ->
    star cls k (w ++ s') p <> None.
Proof.
  induction w as [| a w IH]; intros p Hw Hk; simpl in *.
  - rewrite Nat.add_0_r in Hk.
    destruct s' as [| b s']; simpl; [assumption |].
    destruct (cls b); [apply orelse_right |]; assumption.
  - apply andb_prop in Hw. destruct Hw as [Ha Hw]. rewrite Ha.
    apply orelse_left, IH; [assumption |].
    rewrite Nat.add_succ_r in Hk. exact Hk.
Qed.

Lemma repeat_sound (cls : ascii -> bool)
  (k : string -> nat -> option Thread) (max : nat) :
  forall (min : nat) (s : string) (p : nat) (res : Thread),
    repeat cls min max k s p = Some res ->
    exists w s', s = w ++ s' /\ all_bytes cls w = true /\
                 min <= String.length w <= max /\
                 k s' (p + String.length w) = Some res.
Proof.
  assert (Hstop : forall (min max : nat) (s : string) (p : nat)
                    (res : Thread),
             (if min =? 0 then k s p else None) = Some res ->
             exists w s', s = w ++ s' /\ all_bytes cls w = true /\
                          min <= String.length w <= max /\
                          k s' (p + String.length w) = Some res).
  { intros min max' s p res H.
    destruct (Nat.eqb_spec min 0) as [-> | _]; [| discriminate].
    exists EmptyString, s. simpl. rewrite Nat.add_0_r.
    repeat split; auto; lia. }
  induction max as [| max IH]; intros min s p res H.
  - simpl in H. apply Hstop. exact H.
  - simpl in H. destruct s as [| a s]; [apply Hstop; exact H |].
    destruct (cls a) eqn:Ha; [| apply Hstop; exact H].
    apply orelse_some in H. destruct H as [H | [_ H]];
      [| apply Hstop; exact H].
    apply IH in H. destruct H as (w & s' & -> & Hw & Hlen & Hk).
    exists (String a w), s'. simpl. rewrite Ha, Hw.
    rewrite Nat.add_succ_r.
    repeat split; auto; lia.
Qed.

Lemma repeat_complete (cls : ascii -> bool)
  (k : string -> nat -> option Thread) (s' : string) (max : nat) :
  forall (min : nat) (w : string) (p : nat),
    all_bytes cls w = true ->
    min <= String.length w <= max ->
    k s' (p + String.length w) <> None ->
    repeat cls min max k (w ++ s') p <> None.
Proof.
  induction max as [| max IH]; intros min w p Hw Hlen Hk.
  - destruct w as [| a w]; simpl in Hlen; [| lia].
    assert (min = 0) as -> by lia.
    simpl in *. rewrite Nat.add_0_r in Hk. exact Hk.
  - destruct w as [| a w].
    + simpl in Hlen. assert (min = 0) as -> by lia.
      simpl in *. rewrite Nat.add_0_r in Hk.
      destruct s' as [| b s']; [assumption |].
      destruct (cls b); [apply orelse_right |]; assumption.
    + simpl in Hw. apply andb_prop in Hw. destruct Hw as [Ha Hw].
      simpl. rewrite Ha.
      apply orelse_left, IH; [assumption | simpl in Hlen; lia |].
      simpl in Hk. rewrite Nat.add_succ_r in Hk. exact Hk.
Qed.

(** Soundness: a thread the matcher returns is reached through a match
    of the pattern. *)
Lemma run_sound (r : Regexp) :
  forall (k : Cont) (t res : Thread),
    run r k t = Some res ->
    exists t', Matches r t t' /\ k t' = Some res.
Proof.
  induction r as [| | c | cls | cls | cls min max | r1 IH1 r2 IH2 | i r IH];
    intros k t res H; simpl in H.
  - destruct (Nat.eqb_spec (pos t) 0) as [Hp |]; [| discriminate].
    exists t. split; [constructor |]; assumption.
  - destruct (rest t) eqn:Hr; [| discriminate].
    exists t. split; [constructor |]; assumption.
  - destruct (rest t) as [| a s] eqn:Hr; [discriminate |].
    destruct (Ascii.eqb_spec a c) as [-> |]; [| discriminate].
    eexists. split; [apply M_Literal; eassumption | assumption].
  - destruct (rest t) as [| a s] eqn:Hr; [discriminate |].
    destruct (cls a) eqn:Ha; [| discriminate].
    eexists. split; [eapply M_CharClass; eassumption | assumption].
  - destruct (rest t) as [| a s] eqn:Hr; [discriminate |].
    destruct (cls a) eqn:Ha; [| discriminate].
    apply star_sound in H. destruct H as (w & s' & -> & Hw & Hk).
    exists (moved t s' (pos t + String.length (String a w))). split.
    + apply M_Plus; [assumption | discriminate |].
      simpl. rewrite Ha, Hw. reflexivity.
    + simpl. rewrite Nat.add_succ_r. exact Hk.
  - apply repeat_sound in H. destruct H as (w & s' & Hs & Hw & Hlen & Hk).
    exists (moved t s' (pos t + String.length w)). split.
    + apply M_Repeat; assumption.
    + exact Hk.
  - apply IH1 in H. destruct H as (t1 & H1 & H).
    apply IH2 in H. destruct H as (t2 & H2 & H).
    exists t2. split; [econstructor; eassumption | assumption].
  - apply IH in H. destruct H as (t' & H1 & H).
    eexists. split; [apply M_Capture; eassumption | assumption].
Qed.

(** Completeness: where the pattern has a match that the rest of the
    pattern accepts, the matcher returns a thread. *)
Lemma run_complete (r : Regexp) (t t' : Thread) :
  Matches r t t' ->
  forall k : Cont, k t' <> None -> run r k t <> None.
Proof.
  induction 1 as [t Hp | t Hr | c s t Hr | cls a s t Hr Ha
                  | cls w s t Hr Hne Hw | cls min max w s t Hr Hlen Hw
                  | r1 r2 t t1 t2 _ IH1 _ IH2 | i r t t' _ IH];
    intros k Hk; simpl.
  - rewrite Hp. exact Hk.
  - rewrite Hr. exact Hk.
  - rewrite Hr, Ascii.eqb_refl. exact Hk.
  - rewrite Hr, Ha. exact Hk.
  - rewrite Hr. destruct w as [| a w]; [contradiction Hne; reflexivity |].
    simpl in *. apply andb_prop in Hw. destruct Hw as [Ha Hw]. rewrite Ha.
    apply star_complete; [assumption |].
    rewrite Nat.add_succ_r in Hk. exact Hk.
  - rewrite Hr. apply repeat_complete; assumption.
  - apply IH1, IH2, Hk.
  - apply IH. exact Hk.
Qed.

End Matcher_facts.

(* ================================================================= *)
(** * The address parser *)

Section Address_facts.

Local Open Scope nat_scope.

Import regexp.

Ltac invert_match :=
  repeat match goal with
         | H : Matches (Concat _ _) _ _ |- _ => inversion H; subst; clear H
         | H : Matches (Capture _ _) _ _ |- _ => inversion H; subst; clear H
         | H : Matches BeginText _ _ |- _ => inversion H; subst; clear H
         | H : Matches EndText _ _ |- _ => inversion H; subst; clear H
         | H : Matches (Literal _) _ _ |- _ => inversion H; subst; clear H
         | H : Matches (Plus _) _ _ |- _ => inversion H; subst; clear H
         | H : Matches (Repeat _ _ _) _ _ |- _ =>
           inversion H; subst; clear H
         end.

Lemma length_address_of (local body tld : string) :
  String.length (address_of local body tld) =
  S (S (String.length local + String.length body + String.length tld)).
Proof.
  unfold address_of. rewrite length_append. simpl.
  rewrite length_append. simpl. lia.
Qed.

Lemma EmailRegexp_sound (email : string) (t : Thread) :
  run EmailRegexp Some (start_thread email) = Some t ->
  exists local body tld,
    well_formed local body tld /\ email = address_of local body tld /\
    pos t = String.length email /\
    caps t = [(1, (S (String.length local), String.length email))].
Proof.
  intros H. apply run_sound in H. destruct H as (t' & HM & Heq).
  injection Heq as ->. unfold EmailRegexp, start_thread in HM.
  invert_match. simpl in *. subst.
  match goal with
  | Hl : all_bytes local_class ?l = true,
    Hb : all_bytes domain_class ?b = true,
    Ht : all_bytes is_word ?w = true |- _ =>
    exists l, b, w; rewrite append_empty_r;
    change (l ++ String "@" (b ++ String "." w))%string
      with (address_of l b w)
  end.
  rewrite length_address_of.
  unfold well_formed. intuition.
Qed.

Lemma EmailRegexp_complete (local body tld : string) :
  well_formed local body tld ->
  run EmailRegexp Some (start_thread (address_of local body tld)) <> None.
Proof.
  intros (Hl0 & Hl & Hb0 & Hb & Hlen & Ht).
  apply run_complete
    with (t' := {| rest := EmptyString;
                   pos := String.length (address_of local body tld);
                   caps := [(1, (S (String.length local),
                                 String.length (address_of local body tld)))]
                |});
    [| discriminate].
  rewrite length_address_of.
  set (t0 := start_thread (address_of local body tld)).
  set (t1 := moved t0 ("@" ++ body ++ "." ++ tld)%string
               (0 + String.length local)).
  set (t2 := moved t1 (body ++ "." ++ tld)%string (S (pos t1))).
  set (t3 := moved t2 ("." ++ tld)%string (pos t2 + String.length body)).
  set (t4 := moved t3 tld (S (pos t3))).
  set (t5 := moved t4 EmptyString (pos t4 + String.length tld)).
  unfold EmailRegexp.
  apply M_Concat with (t1 := t0); [constructor; reflexivity |].
  apply M_Concat with (t1 := t1); [apply M_Plus; auto |].
  apply M_Concat with (t1 := t2); [apply M_Literal; reflexivity |].
  apply M_Concat
    with (t1 := {| rest := rest t5; pos := pos t5;
                   caps := (1, (pos t2, pos t5)) :: caps t5 |}).
  - apply M_Capture.
    apply M_Concat with (t1 := t3); [apply M_Plus; auto |].
    apply M_Concat with (t1 := t4); [apply M_Literal; reflexivity |].
    apply M_Repeat; [simpl; rewrite append_empty_r; reflexivity | | ]; auto.
  - simpl.
    replace (S (S (String.length local + String.length body)) +
             String.length tld)
      with (S (S (String.length local + String.length body +
                  String.length tld))) by lia.
    apply M_EndText. reflexivity.
Qed.

(** The pattern starts with [^]: it has no match that starts after the
    first byte. *)
Lemma EmailRegexp_anchored (s : string) :
  forall p : nat, doExecute EmailRegexp s (S p) = None.
Proof.
  induction s as [| a s IH]; intros p; simpl; [reflexivity | apply IH].
Qed.

Lemma doExecute_step (re : Regexp) (s : string) (p : nat) :
  doExecute re s p =
  match run re Some {| rest := s; pos := p; caps := [] |} with
  | Some t => Some {| m_start := p; m_end := pos t; m_caps := caps t |}
  | None =>
    match s with
    | String _ s' => doExecute re s' (S p)
    | EmptyString => None
    end
  end.
Proof. destruct s; reflexivity. Qed.

Lemma doExecute_EmailRegexp (s : string) :
  doExecute EmailRegexp s 0 =
  match run EmailRegexp Some (start_thread s) with
  | Some t => Some {| m_start := 0; m_end := pos t; m_caps := caps t |}
  | None => None
  end.
Proof.
  rewrite doExecute_step. fold (start_thread s).
  destruct (run EmailRegexp Some (start_thread s)); [reflexivity |].
  destruct s as [| a s]; [reflexivity | apply EmailRegexp_anchored].
Qed.

Lemma allMatches_step (fuel : nat) (re : Regexp) (s : string) (p : nat)
  (prevMatchEnd : option nat) :
  allMatches (S fuel) re s p prevMatchEnd =
  if String.length s <? p then []
  else
    match doExecute re (drop p s) p with
    | None => []
    | Some m =>
      let empty := m_end m =? p in
      let accept :=
        negb (empty &&
              match prevMatchEnd with
              | Some e => m_start m =? e
              | None => false
              end) in
      let p' :=
        if empty
        then
          let width := snd (utf8.DecodeRuneInString (drop p s)) in
          if 0 <? width then p + width else String.length s + 1
        else m_end m in
      ((if accept then [m] else []) ++
       allMatches fuel re s p' (Some (m_end m)))%list
    end.
Proof. reflexivity. Qed.

(** A byte that occurs neither in [l] nor in [l'] splits a string in
    one way only. *)
Lemma split_at_unique (c : ascii) (l : string) :
  forall l' x x' : string,
    count_byte c l = 0 -> count_byte c l' = 0 ->
    (l ++ String c x)%string = (l' ++ String c x')%string ->
    l = l' /\ x = x'.
Proof.
  induction l as [| a l IH]; intros [| a' l'] x x' Hl Hl' Heq;
    simpl in *.
  - injection Heq as ->. auto.
  - injection Heq as <- _. rewrite Ascii.eqb_refl in Hl'. discriminate.
  - injection Heq as -> _. rewrite Ascii.eqb_refl in Hl. discriminate.
  - injection Heq as -> Heq.
    destruct (Ascii.eqb a' c); [discriminate |].
    destruct (IH l' x x' Hl Hl' Heq) as [-> ->]. auto.
Qed.

Lemma local_class_at : local_class "@" = false.
Proof. reflexivity. Qed.

Lemma domain_class_at : domain_class "@" = false.
Proof. reflexivity. Qed.

Lemma is_word_at : is_word "@" = false.
Proof. reflexivity. Qed.

(** A well-formed address contains [@] once. *)
Lemma well_formed_one_at (local body tld : string) :
  well_formed local body tld ->
  count_byte "@" local = 0 /\ count_byte "@" (body ++ "." ++ tld) = 0.
Proof.
  intros (_ & Hl & _ & Hb & _ & Ht).
  split; [exact (count_byte_outside _ _ _ local_class_at Hl) |].
  rewrite count_byte_append. simpl.
  rewrite (count_byte_outside _ _ _ domain_class_at Hb).
  rewrite (count_byte_outside _ _ _ is_word_at Ht). reflexivity.
Qed.

(** The local part and the domain of a well-formed address are
    determined by the address. *)
Lemma address_of_unique (local body tld local' body' tld' : string) :
  well_formed local body tld -> well_formed local' body' tld' ->
  address_of local body tld = address_of local' body' tld' ->
  local = local' /\
  (body ++ "." ++ tld)%string = (body' ++ "." ++ tld')%string.
Proof.
  intros H H' Heq.
  apply well_formed_one_at in H, H'.
  apply (split_at_unique "@" local local'); tauto.
Qed.

Lemma slice_domain (local domain : string) :
  slice (S (String.length local))
    (String.length (local ++ "@" ++ domain)) (local ++ "@" ++ domain) =
  domain.
Proof.
  change (local ++ "@" ++ domain)%string
    with (local ++ (String "@" EmptyString) ++ domain)%string.
  rewrite <- append_assoc.
  replace (S (String.length local))
    with (String.length (local ++ String "@" EmptyString))
    by (rewrite length_append; simpl; lia).
  apply slice_suffix.
Qed.

(** The matches of the pattern in an address that it matches: one, the
    whole address, its group the domain. *)
Lemma FindAllStringSubmatch_match (local body tld : string) :
  well_formed local body tld ->
  FindAllStringSubmatch EmailRegexp (address_of local body tld) =
  [[address_of local body tld; (body ++ "." ++ tld)%string]].
Proof.
  intros Hwf.
  destruct (run EmailRegexp Some (start_thread (address_of local body tld)))
    as [t |] eqn:Hrun;
    [| exfalso; revert Hrun; apply EmailRegexp_complete, Hwf].
  destruct (EmailRegexp_sound _ Hrun)
    as (local' & body' & tld' & Hwf' & Heq & Hpos & Hcaps).
  destruct (address_of_unique Hwf Hwf' Heq) as [<- _]. clear Hwf' Heq.
  unfold FindAllStringSubmatch.
  rewrite allMatches_step. cbv zeta.
  change (drop 0 (address_of local body tld))
    with (address_of local body tld).
  rewrite doExecute_EmailRegexp, Hrun.
  cbn [m_start m_end m_caps]. rewrite Hpos, Hcaps. clear Hrun Hpos Hcaps.
  set (email := address_of local body tld).
  pose proof (length_address_of local body tld) as Hlen. fold email in Hlen.
  destruct (String.length email) as [| n] eqn:Hn; [discriminate |].
  clear Hlen.
  cbn [Nat.ltb Nat.leb Nat.eqb andb negb].
  rewrite allMatches_step, Hn, Nat.ltb_irrefl, EmailRegexp_anchored.
  cbn [app map]. unfold submatches.
  cbn [m_start m_end m_caps NumSubexp EmailRegexp Nat.add seq map group
       Nat.eqb].
  rewrite <- Hn, slice_whole.
  unfold email, address_of. rewrite slice_domain. reflexivity.
Qed.

(** The pattern has no match in any other string. *)
Lemma FindAllStringSubmatch_no_match (email : string) :
  run EmailRegexp Some (start_thread email) = None ->
  FindAllStringSubmatch EmailRegexp email = [].
Proof.
  intros Hrun. unfold FindAllStringSubmatch.
  rewrite allMatches_step.
  change (drop 0 email) with email.
  rewrite doExecute_EmailRegexp, Hrun. reflexivity.
Qed.

Lemma getHostnameFromEmail_valid (local body tld : string) :
  well_formed local body tld ->
  getHostnameFromEmail (address_of local body tld) =
  ((body ++ "." ++ tld)%string, None).
Proof.
  intros Hwf. unfold getHostnameFromEmail.
  rewrite (FindAllStringSubmatch_match Hwf). reflexivity.
Qed.

(** An address is matched once, and its domain returned, or it is not
    matched and is invalid. *)
Lemma getHostnameFromEmail_cases (email : string) :
  (exists local body tld,
     well_formed local body tld /\ email = address_of local body tld /\
     FindAllStringSubmatch EmailRegexp email =
     [[email; (body ++ "." ++ tld)%string]] /\
     getHostnameFromEmail email = ((body ++ "." ++ tld)%string, None)) \/
  ((forall local body tld,
      well_formed local body tld -> email <> address_of local body tld) /\
   FindAllStringSubmatch EmailRegexp email = [] /\
   getHostnameFromEmail email = InvalidAddress).
Proof.
  destruct (run EmailRegexp Some (start_thread email)) as [t |] eqn:Hrun.
  - left. destruct (EmailRegexp_sound _ Hrun)
      as (local & body & tld & Hwf & -> & _).
    exists local, body, tld.
    auto using getHostnameFromEmail_valid, FindAllStringSubmatch_match.
  - right. split; [| split].
    + intros local body tld Hwf ->.
      revert Hrun. apply EmailRegexp_complete, Hwf.
    + apply FindAllStringSubmatch_no_match, Hrun.
    + unfold getHostnameFromEmail.
      rewrite (FindAllStringSubmatch_no_match _ Hrun). reflexivity.
Qed.

End Address_facts.

(** ** Sample addresses *)

Example getHostnameFromEmail_local_domain_tld :
  getHostnameFromEmail "local@domain.tld" = ("domain.tld", None).
Proof. reflexivity. Qed.

Example getHostnameFromEmail_missing_at :
  getHostnameFromEmail "local.domain.tld" = InvalidAddress.
Proof. reflexivity. Qed.

Example getHostnameFromEmail_two_at :
  getHostnameFromEmail "a@b@domain.tld" = InvalidAddress.
Proof. reflexivity. Qed.

Example getHostnameFromEmail_no_top_level :
  getHostnameFromEmail "local@domain" = InvalidAddress.
Proof. reflexivity. Qed.

Example getHostnameFromEmail_empty_label :
  getHostnameFromEmail "a@..com" = ("..com", None).
Proof. reflexivity. Qed.

(** ** C6 *)

(** C6, counterexample: [a@b.12] has no top-level label of letters, yet the
    source returns its domain [b.12]: the pattern ends in two to four word
    characters, digits and the underscore included. *)
Lemma digits_as_top_level_label : ~ parser_follows_spec "a@b.12".
Proof.
  unfold parser_follows_spec. vm_compute. discriminate.
Qed.

(** C6, as amended: the parser matches the address against the pattern
    [local@domain] in which [local] is one or more word characters,
    digits, dots, underscores, percent signs, plus signs and hyphens, and
    [domain] is one or more word characters, digits, dots and hyphens,
    then a dot, then a top-level label of two to four word characters
    (letters, digits or underscore).  The pattern has one match or none.
    On one match the parser returns the domain, the text after the [@],
    without error; on none it fails with the invalid-address error, as
    it does for the addresses that do not contain exactly one [@] and
    for those with no dot after the [@]. *)
Theorem getHostnameFromEmail_domain (email : string) :
  (forall domain : string,
     getHostnameFromEmail email = (domain, None) <->
     exists local body tld,
       well_formed local body tld /\
       email = (local ++ "@" ++ domain)%string /\
       domain = (body ++ "." ++ tld)%string) /\
  (forall domain : string,
     getHostnameFromEmail email = (domain, None) <->
     regexp.FindAllStringSubmatch EmailRegexp email = [[email; domain]]) /\
  (regexp.FindAllStringSubmatch EmailRegexp email = [] ->
   getHostnameFromEmail email = InvalidAddress) /\
  (regexp.FindAllStringSubmatch EmailRegexp email = [] \/
   exists domain,
     regexp.FindAllStringSubmatch EmailRegexp email = [[email; domain]]) /\
  (count_byte "@" email <> 1%nat ->
   getHostnameFromEmail email = InvalidAddress) /\
  (forall local rest : string,
     email = (local ++ "@" ++ rest)%string ->
     count_byte "." rest = 0%nat ->
     getHostnameFromEmail email = InvalidAddress).
Proof.
  destruct (getHostnameFromEmail_cases email)
    as [(local & body & tld & Hwf & Hemail & Hall & Hres)
       | (Hno & Hall & Hres)].
  - destruct (well_formed_one_at Hwf) as [Hat1 Hat2].
    assert (Hcount : count_byte "@" email = 1%nat).
    { rewrite Hemail. unfold address_of.
      rewrite count_byte_append. simpl count_byte at 2.
      simpl in Hat2. rewrite Hat1. simpl. rewrite Hat2. reflexivity. }
    repeat split.
    + rewrite Hres. intros Heq. injection Heq as <-.
      exists local, body, tld. auto.
    + intros (local' & body' & tld' & Hwf' & -> & ->).
      apply (getHostnameFromEmail_valid Hwf').
    + rewrite Hres, Hall. intros Heq. injection Heq as <-. reflexivity.
    + rewrite Hres, Hall. intros Heq. injection Heq as <-. reflexivity.
    + rewrite Hall. discriminate.
    + right. eexists. exact Hall.
    + intros Hne. contradiction.
    + intros local' rest Heq Hdot. exfalso.
      rewrite Heq in Hcount. rewrite count_byte_append in Hcount.
      simpl in Hcount.
      assert (Hl' : count_byte "@" local' = 0%nat) by lia.
      rewrite Hemail in Heq. unfold address_of in Heq.
      destruct (split_at_unique "@" local local' _ _ Hat1 Hl' Heq)
        as [_ Hrest].
      rewrite <- Hrest in Hdot. rewrite count_byte_append in Hdot.
      simpl in Hdot. lia.
  - repeat split.
    + rewrite Hres. discriminate.
    + intros (local & body & tld & Hwf & -> & ->).
      exfalso. exact (Hno _ _ _ Hwf eq_refl).
    + rewrite Hres. discriminate.
    + rewrite Hall. discriminate.
    + intros _. exact Hres.
    + left. exact Hall.
    + intros _. exact Hres.
    + intros _ _ _ _. exact Hres.
Qed.

(* ================================================================= *)
(** * Initialisation of a message *)

Section Init_facts.

Lemma UnixNano_after_epoch (t : time.Time) :
  time.after_epoch t ->
  time.UnixNano t = time.unixSec t * 1000000000 + time.nsec t /\
  time.UnixNano t <> 0 /\ time.IsZero t = false.
Proof.
  unfold time.after_epoch, time.UnixNano, time.wrap64, time.IsZero,
    time.unixSec, time.internalToUnix.
  intros [Hn Hx].
  rewrite Z.mod_small by lia.
  repeat split; lia.
Qed.

(** The two indexings of [getHostnameFromEmail] are within range under
    its guard. *)
Lemma guarded_indices (matches : list (list string)) :
  (len matches =? 1) && (len (nth 0 matches []) =? 2) = true ->
  exists whole hostname,
    matches = [[whole; hostname]] /\
    nth 1 (nth 0 matches []) EmptyString = hostname.
Proof.
  unfold len. intros H. apply andb_prop in H. destruct H as [H1 H2].
  apply Z.eqb_eq in H1, H2.
  destruct matches as [| m [| m' matches]]; simpl in *; try lia.
  destruct m as [| whole [| hostname [| x m]]]; simpl in *; try lia.
  exists whole, hostname. auto.
Qed.

Lemma MailMessage_Init_run (this : MailMessage) (clock : time.Clock) :
  let from := getHostnameFromEmail (Envelope this) in
  let to := getHostnameFromEmail (Recipient this) in
  MailMessage_Init this clock =
  ({| Id := time.UnixNano (time.reading clock (time.reads clock));
      Envelope := Envelope this;
      Recipient := Recipient this;
      Body := Body this;
      HostnameFrom := match snd from with
                      | None => fst from
                      | Some _ => HostnameFrom this
                      end;
      HostnameTo := match snd to with
                    | None => fst to
                    | Some _ => HostnameTo this
                    end;
      CreatedDate := time.reading clock (S (time.reads clock));
      BindingType := BindingType this;
      Error := Error this |},
   {| time.reading := time.reading clock;
      time.reads := S (S (time.reads clock)) |}).
Proof.
  destruct this as [id envelope recipient body from to created tier err].
  unfold MailMessage_Init, time.Now.
  cbn -[getHostnameFromEmail time.UnixNano].
  destruct (getHostnameFromEmail envelope) as [h1 [e1 |]];
    cbn -[getHostnameFromEmail time.UnixNano];
    destruct (getHostnameFromEmail recipient) as [h2 [e2 |]];
    reflexivity.
Qed.

End Init_facts.

(** ** C8 *)

(** C8: [Message.Init] never fails; with a clock that reads a time after
    the Unix epoch it assigns a non-zero id, read from the clock, and a
    non-zero creation date; it sets [HostnameFrom] to the domain of the
    envelope and [HostnameTo] to the domain of the recipient when the
    address parses, and when it does not parse it leaves the field as it
    was, empty for a message that was not initialised before; no other
    field changes. *)
Theorem MailMessage_Init_fields (this : MailMessage) (clock : time.Clock) :
  time.after_epoch (time.reading clock (time.reads clock)) ->
  time.after_epoch (time.reading clock (S (time.reads clock))) ->
  let this' := fst (MailMessage_Init this clock) in
  Id this' = time.UnixNano (time.reading clock (time.reads clock)) /\
  Id this' <> 0 /\
  CreatedDate this' = time.reading clock (S (time.reads clock)) /\
  time.IsZero (CreatedDate this') = false /\
  (forall hostname : string,
     getHostnameFromEmail (Envelope this) = (hostname, None) ->
     HostnameFrom this' = hostname) /\
  (snd (getHostnameFromEmail (Envelope this)) <> None ->
   HostnameFrom this' = HostnameFrom this /\
   (HostnameFrom this = EmptyString -> HostnameFrom this' = EmptyString)) /\
  (forall hostname : string,
     getHostnameFromEmail (Recipient this) = (hostname, None) ->
     HostnameTo this' = hostname) /\
  (snd (getHostnameFromEmail (Recipient this)) <> None ->
   HostnameTo this' = HostnameTo this /\
   (HostnameTo this = EmptyString -> HostnameTo this' = EmptyString)) /\
  Envelope this' = Envelope this /\ Recipient this' = Recipient this /\
  Body this' = Body this /\ BindingType this' = BindingType this /\
  Error this' = Error this.
Proof.
  intros H1 H2.
  pose proof (MailMessage_Init_run this clock) as Hrun. cbv zeta in *.
  rewrite Hrun. cbn [fst Id CreatedDate HostnameFrom HostnameTo Envelope
                     Recipient Body BindingType Error].
  destruct (UnixNano_after_epoch H1) as (_ & Hid & _).
  destruct (UnixNano_after_epoch H2) as (_ & _ & Hzero).
  repeat split; auto.
  - intros hostname ->. reflexivity.
  - destruct (snd (getHostnameFromEmail (Envelope this)));
      [reflexivity | contradiction].
  - destruct (snd (getHostnameFromEmail (Envelope this)));
      [auto | contradiction].
  - intros hostname ->. reflexivity.
  - destruct (snd (getHostnameFromEmail (Recipient this)));
      [reflexivity | contradiction].
  - destruct (snd (getHostnameFromEmail (Recipient this)));
      [auto | contradiction].
Qed.

Lemma sample_clock_after_epoch (n : nat) :
  time.after_epoch (time.reading sample_clock n).
Proof.
  unfold time.after_epoch, time.unixSec, time.internalToUnix.
  cbn [time.reading sample_clock time.sec time.nsec].
  destruct (n =? 0)%nat; lia.
Defined.

(** C8 at the message with envelope [a@x.com] and recipient [b@y.org]:
    the hostnames are [x.com] and [y.org], the id and the creation date
    are not zero. *)
Lemma MailMessage_Init_example :
  let this' :=
    fst (MailMessage_Init (new_message "a@x.com" "b@y.org" "hello")
           sample_clock) in
  HostnameFrom this' = "x.com" /\ HostnameTo this' = "y.org" /\
  Id this' <> 0 /\ time.IsZero (CreatedDate this') = false.
Proof.
  pose proof (MailMessage_Init_fields
                (new_message "a@x.com" "b@y.org" "hello") sample_clock
                (sample_clock_after_epoch 0) (sample_clock_after_epoch 1))
    as H.
  cbv zeta in *.
  destruct H as (_ & Hid & _ & Hzero & Hfrom & _ & Hto & _).
  split; [apply Hfrom; reflexivity |].
  split; [apply Hto; reflexivity |].
  split; assumption.
Defined.

(* ================================================================= *)
(** * Further properties of the timeout profile *)

(** X1: the profiles that [Timeout.Init] leaves as they are are exactly
    those with no zero field. *)
Theorem Timeout_Init_fixed_points (t : Timeout) :
  Timeout_Init t = t <-> all_nonzero t.
Proof.
  rewrite Timeout_Init_fields. destruct t as [s w c h m r d].
  unfold all_nonzero; simpl. split.
  - intros H. injection H as Hs Hw Hc Hh Hm Hr Hd.
    repeat split;
      match goal with
      | E : default_to ?x ?v = ?v |- ?v <> 0 =>
        rewrite <- E; apply default_to_nonzero; discriminate
      end.
  - intros (Hs & Hw & Hc & Hh & Hm & Hr & Hd).
    rewrite !default_to_keeps by assumption. reflexivity.
Qed.

Lemma default_to_positive (d v : Z) :
  0 < d < 2 ^ 63 -> 0 <= v < 2 ^ 63 -> 0 < default_to d v < 2 ^ 63.
Proof.
  unfold default_to. intros Hd Hv.
  destruct (Z.eqb_spec v 0); lia.
Qed.

(** X2: from a profile with no negative duration, [Timeout.Init] makes a
    profile whose seven durations are positive (and still fit [int64]). *)
Theorem Timeout_Init_positive (t : Timeout) :
  no_negative t -> all_positive (Timeout_Init t).
Proof.
  rewrite Timeout_Init_fields. destruct t as [s w c h m r d].
  unfold no_negative, all_positive; simpl.
  intros (Hs & Hw & Hc & Hh & Hm & Hr & Hd).
  unfold one_second, thirty_seconds, five_minutes, ten_minutes.
  repeat split; apply default_to_positive; assumption || lia.
Qed.

Lemma Timeout_Init_positive_witness :
  all_positive (Timeout_Init (Build_Timeout 0 0 7 0 0 0 0)).
Proof.
  apply Timeout_Init_positive.
  unfold no_negative; simpl. lia.
Defined.

(* ================================================================= *)
(** * Further properties of [ReturnMail] *)

(** X3: a call of [ReturnMail] adds to the effects so far the reset of
    the session, when the event carries one, and then the verdict, which
    comes last; the client and the result channel of the event are not
    changed. *)
Theorem ReturnMail_reset_before_verdict (event : SendEvent)
  (err : option error) (trace : list Effect) :
  exists event' verdict,
    ReturnMail event err trace =
    Returned event'
      (trace ++
       match Client event with
       | Some client =>
         match Worker client with
         | Some worker => [SessionReset worker]
         | None => []
         end
       | None => []
       end ++ [ChannelSend (Result event) verdict]) /\
    Client event' = Client event /\ Result event' = Result event.
Proof.
  rewrite ReturnMail_run.
  exists (after_classification event err),
    (verdict_for (Message (after_classification event err))).
  pose proof (after_classification_fields event err) as H. cbv zeta in H.
  destruct H as (HC & HR & _).
  split; [| split; assumption].
  unfold session_effects, session_of.
  destruct (Client event) as [[[w |]] |]; reflexivity.
Qed.

Lemma verdict_for_error (m : MailMessage) :
  Error m <> None -> verdict_for m = ErrorSendEventResult.
Proof.
  unfold verdict_for. destruct (Error m); [reflexivity | contradiction].
Qed.

Lemma after_classification_keeps_error (event : SendEvent)
  (err : option error) :
  Error (Message event) <> None ->
  Error (Message (after_classification event err)) <> None.
Proof.
  rewrite after_classification_Error.
  destruct (classified err); [discriminate | auto].
Qed.

(** X4: once a message carries a classified error, every later call of
    [ReturnMail] on it, whatever the raw error, nil included, keeps an
    error on the message and sends the hard-error verdict: over any
    sequence of attempts the verdicts are all [ErrorSendEventResult], one
    for each attempt. *)
Theorem hard_error_is_sticky (errs : list (option error)) :
  forall (event : SendEvent) (trace : list Effect),
    Error (Message event) <> None ->
    exists event' effects,
      attempts errs event trace = Returned event' (trace ++ effects) /\
      Error (Message event') <> None /\
      sends effects =
      map (fun _ => (Result event, ErrorSendEventResult)) errs.
Proof.
  induction errs as [| err errs IH]; intros event trace Herr.
  - exists event, []. rewrite app_nil_r. auto.
  - cbn [attempts]. unfold bind. rewrite ReturnMail_run.
    pose proof (after_classification_keeps_error event err Herr) as Herr'.
    pose proof (after_classification_fields event err) as HF.
    cbv zeta in HF. destruct HF as (_ & HR & _).
    destruct (IH (after_classification event err)
                (trace ++ session_effects event ++
                 [ChannelSend (Result event)
                    (verdict_for
                       (Message (after_classification event err)))])%list
                Herr') as (event' & effects & Hrun & He & Hs).
    exists event'.
    exists (session_effects event ++
            [ChannelSend (Result event)
               (verdict_for (Message (after_classification event err)))] ++
            effects)%list.
    split; [| split; [exact He |]].
    + rewrite Hrun. rewrite <- !app_assoc. reflexivity.
    + rewrite sends_app, sends_session_effects. cbn [app sends map].
      rewrite Hs, HR, (verdict_for_error _ Herr'). reflexivity.
Qed.

Lemma hard_error_is_sticky_witness :
  exists event' effects,
    attempts [Some (errors_New "timeout"); None;
              Some (errors_New "connection reset")] stale_event [] =
    Returned event' ([] ++ effects) /\
    Error (Message event') <> None /\
    sends effects =
    map (fun _ => (Result stale_event, ErrorSendEventResult))
      [Some (errors_New "timeout"); None;
       Some (errors_New "connection reset")].
Proof.
  apply hard_error_is_sticky. discriminate.
Defined.

Lemma after_classification_twice (event : SendEvent) (err : option error) :
  after_classification (after_classification event err) err =
  after_classification event err.
Proof.
  unfold after_classification.
  destruct (classified err) as [e |]; reflexivity.
Qed.

(** X5: a second call of [ReturnMail] with the same raw error leaves the
    event as the first call left it, and sends the same verdict again. *)
Theorem ReturnMail_twice (event : SendEvent) (err : option error)
  (trace : list Effect) :
  exists event1 trace1 verdict effects1 effects2,
    ReturnMail event err trace = Returned event1 trace1 /\
    trace1 = (trace ++ effects1)%list /\
    sends effects1 = [(Result event, verdict)] /\
    ReturnMail event1 err trace1 = Returned event1 (trace1 ++ effects2) /\
    sends effects2 = [(Result event, verdict)].
Proof.
  pose proof (after_classification_fields event err) as HF.
  cbv zeta in HF. destruct HF as (_ & HR & _).
  exists (after_classification event err).
  eexists. exists (verdict_for (Message (after_classification event err))).
  eexists. eexists.
  split; [apply ReturnMail_run |].
  split; [reflexivity |].
  split; [rewrite sends_app, sends_session_effects; reflexivity |].
  split.
  - rewrite ReturnMail_run, after_classification_twice. reflexivity.
  - rewrite sends_app, sends_session_effects, HR. reflexivity.
Qed.

(** X6: a raw error text that starts with a space is never classified,
    whatever follows the space: the first piece of the split is empty.
    The call leaves the event as it was. *)
Theorem leading_space_not_classified (event : SendEvent) (rest : string)
  (trace : list Effect) :
  exists effects,
    ReturnMail event (Some (errors_New (String " " rest))) trace =
    Returned event (trace ++ effects) /\
    sends effects = [(Result event, verdict_for (Message event))].
Proof.
  rewrite ReturnMail_run.
  assert (Hc : after_classification event
                 (Some (errors_New (String " " rest))) = event)
    by reflexivity.
  rewrite Hc.
  eexists; split; [reflexivity |].
  rewrite sends_app, sends_session_effects. reflexivity.
Qed.

Section Trim_facts.

Local Open Scope nat_scope.

Lemma is_plain_spec (a : ascii) :
  is_plain a = true ->
  (byte a <? utf8.RuneSelf)%Z = true /\ unicode.IsSpace (byte a) = false.
Proof.
  unfold is_plain. intros H. apply andb_prop in H. destruct H as [H1 H2].
  split; [assumption |]. apply negb_true_iff. assumption.
Qed.

Lemma DecodeRuneInString_ascii (a : ascii) (s : string) :
  (byte a <? utf8.RuneSelf)%Z = true ->
  utf8.DecodeRuneInString (String a s) = (byte a, 1).
Proof.
  intros H. unfold utf8.DecodeRuneInString. rewrite H. reflexivity.
Qed.

Lemma TrimLeftFunc_plain (a : ascii) (s : string) :
  is_plain a = true ->
  strings.TrimLeftFunc (String a s) unicode.IsSpace = String a s.
Proof.
  intros H. destruct (is_plain_spec _ H) as [Ha Hs].
  unfold strings.TrimLeftFunc. cbn [String.length strings.indexFunc].
  rewrite DecodeRuneInString_ascii by assumption.
  rewrite Hs. reflexivity.
Qed.

Lemma rev_string_last (w : string) (b : ascii) :
  rev_string (w ++ String b EmptyString) = String b (rev_string w).
Proof.
  induction w as [| a w IH]; simpl; [| rewrite IH]; reflexivity.
Qed.

Lemma DecodeLastRuneInString_ascii (w : string) (b : ascii) :
  (byte b <? utf8.RuneSelf)%Z = true ->
  utf8.DecodeLastRuneInString (w ++ String b EmptyString) = (byte b, 1).
Proof.
  intros H. unfold utf8.DecodeLastRuneInString.
  rewrite rev_string_last, H. reflexivity.
Qed.

Lemma length_with_last (w : string) (b : ascii) :
  String.length (w ++ String b EmptyString) = S (String.length w).
Proof. rewrite length_append. simpl. lia. Qed.

Lemma TrimRightFunc_plain (w : string) (b : ascii) :
  is_plain b = true ->
  strings.TrimRightFunc (w ++ String b EmptyString) unicode.IsSpace =
  (w ++ String b EmptyString)%string.
Proof.
  intros H. destruct (is_plain_spec _ H) as [Hb Hs].
  unfold strings.TrimRightFunc.
  rewrite length_with_last. cbn [strings.lastIndexFunc Nat.eqb].
  rewrite <- (length_with_last w b) at 1. rewrite take_length.
  rewrite DecodeLastRuneInString_ascii by assumption.
  rewrite Hs. cbn [Nat.sub]. rewrite Nat.sub_0_r, drop_append.
  assert (Hge : (utf8.RuneSelf <=? byte b)%Z = false).
  { apply Z.ltb_lt in Hb. apply Z.leb_gt. exact Hb. }
  rewrite Hge, Nat.add_1_r.
  rewrite <- (length_with_last w b). apply take_length.
Qed.

(** A string whose first and last bytes are ASCII and no white space is
    left as it is by [TrimSpace]. *)
Lemma TrimSpace_plain (a b : ascii) (s w : string) :
  is_plain a = true -> is_plain b = true ->
  String a s = (w ++ String b EmptyString)%string ->
  strings.TrimSpace (String a s) = String a s.
Proof.
  intros Ha Hb Heq. unfold strings.TrimSpace, strings.TrimFunc.
  rewrite TrimLeftFunc_plain by assumption.
  rewrite Heq. apply TrimRightFunc_plain. assumption.
Qed.

Lemma before_space_stop (w rest : string) :
  count_byte " " w = 0 ->
  before_space (w ++ String " " rest) = w.
Proof.
  induction w as [| a w IH]; simpl; [reflexivity |].
  destruct (Ascii.eqb a " "); [discriminate |].
  intros H. rewrite IH by assumption. reflexivity.
Qed.

Lemma before_space_all (w : string) :
  count_byte " " w = 0 -> before_space w = w.
Proof.
  induction w as [| a w IH]; simpl; [reflexivity |].
  destruct (Ascii.eqb a " "); [discriminate |].
  intros H. rewrite IH by assumption. reflexivity.
Qed.

Local Open Scope Z_scope.

Lemma is_digit_bounds (a : ascii) :
  regexp.is_digit a = true -> 48 <= byte a <= 57.
Proof. unfold regexp.is_digit. lia. Qed.

Lemma is_digit_plain (a : ascii) :
  regexp.is_digit a = true -> is_plain a = true.
Proof.
  intros H. apply is_digit_bounds in H.
  unfold is_plain, utf8.RuneSelf, unicode.IsSpace. lia.
Qed.

Lemma is_digit_not (c a : ascii) :
  regexp.is_digit c = false -> regexp.is_digit a = true ->
  Ascii.eqb a c = false.
Proof.
  intros Hc Ha. destruct (Ascii.eqb_spec a c) as [-> |]; congruence.
Qed.

(** The code [Atoi] reads from three decimal digits. *)
Lemma Atoi_three_digits (a b c : ascii) :
  regexp.is_digit a = true -> regexp.is_digit b = true ->
  regexp.is_digit c = true ->
  strconv.Atoi (String a (String b (String c EmptyString))) =
  (100 * (byte a - 48) + 10 * (byte b - 48) + (byte c - 48), None).
Proof.
  intros Ha Hb Hc.
  unfold strconv.Atoi.
  rewrite (is_digit_not "+" a eq_refl Ha), (is_digit_not "-" a eq_refl Ha).
  cbn [orb negb andb strconv.digits]. unfold strconv.digit.
  unfold regexp.is_digit in Ha, Hb, Hc. cbv zeta in *.
  rewrite Ha, Hb, Hc.
  apply is_digit_bounds in Ha, Hb, Hc.
  change (2 ^ (strconv.IntSize - 1)) with 9223372036854775808.
  destruct (Z.leb_spec 9223372036854775808
              (((0 * 10 + (byte a - 48)) * 10 + (byte b - 48)) * 10 +
               (byte c - 48))); [lia |].
  f_equal. lia.
Qed.

End Trim_facts.

(** X7: a raw error that starts with a reply code of three decimal
    digits, followed by nothing or by a space and any text, is classified:
    the message gets the full text and the value of the three digits as
    its code, and the verdict is hard-error. *)
Theorem three_digit_code_classified (event : SendEvent) (a b c : ascii)
  (tail : string) (trace : list Effect) :
  regexp.is_digit a = true -> regexp.is_digit b = true ->
  regexp.is_digit c = true ->
  tail = EmptyString \/ (exists rest, tail = String " " rest) ->
  let text := String a (String b (String c tail)) in
  exists effects,
    ReturnMail event (Some (errors_New text)) trace =
    Returned
      (set_Message_Error event
         (Some {| MailError_Message := text;
                  MailError_Code :=
                    100 * (byte a - 48) + 10 * (byte b - 48) +
                    (byte c - 48) |}))
      (trace ++ effects) /\
    sends effects = [(Result event, ErrorSendEventResult)].
Proof.
  intros Ha Hb Hc Htail text.
  rewrite ReturnMail_run.
  assert (Hpiece : before_space text =
                   String a (String b (String c EmptyString))).
  { assert (Hno : count_byte " " (String a (String b (String c EmptyString)))
                  = 0%nat).
    { simpl.
      rewrite (is_digit_not " " a eq_refl Ha), (is_digit_not " " b eq_refl Hb),
        (is_digit_not " " c eq_refl Hc). reflexivity. }
    destruct Htail as [-> | [rest ->]].
    - apply before_space_all. exact Hno.
    - apply (before_space_stop _ rest Hno). }
  assert (Hcl : classified (Some (errors_New text)) =
                Some {| MailError_Message := text;
                        MailError_Code :=
                          100 * (byte a - 48) + 10 * (byte b - 48) +
                          (byte c - 48) |}).
  { unfold classified. cbn [Error_text]. rewrite Hpiece.
    rewrite (@TrimSpace_plain a c (String b (String c EmptyString))
               (String a (String b EmptyString))
               (is_digit_plain a Ha) (is_digit_plain c Hc) eq_refl).
    rewrite (Atoi_three_digits a b c Ha Hb Hc). reflexivity. }
  unfold after_classification. rewrite Hcl.
  eexists; split; [reflexivity |].
  rewrite sends_app, sends_session_effects. reflexivity.
Qed.

Lemma three_digit_code_classified_witness :
  exists effects,
    ReturnMail fresh_event
      (Some (errors_New "554 5.7.1 relay access denied")) [] =
    Returned
      (set_Message_Error fresh_event
         (Some {| MailError_Message := "554 5.7.1 relay access denied";
                  MailError_Code := 554 |}))
      ([] ++ effects) /\
    sends effects = [(Result fresh_event, ErrorSendEventResult)].
Proof.
  apply (@three_digit_code_classified fresh_event "5" "5" "4"
           " 5.7.1 relay access denied" []);
    try reflexivity.
  right. eexists. reflexivity.
Defined.

(** X8: a classified error that a call of [ReturnMail] attaches holds the
    full text of the raw error and a code within the range of [int]; a
    first piece whose value does not fit [int] is not classified, and the
    error of the message is then what it was. *)
Theorem classified_code_fits_int (event : SendEvent) (text : string)
  (trace : list Effect) :
  exists event' trace',
    ReturnMail event (Some (errors_New text)) trace = Returned event' trace' /\
    (Error (Message event') = Error (Message event) \/
     exists code,
       Error (Message event') =
       Some {| MailError_Message := text; MailError_Code := code |} /\
       - 2 ^ 63 <= code < 2 ^ 63 /\
       strconv.Atoi (strings.TrimSpace (before_space text)) = (code, None)).
Proof.
  rewrite ReturnMail_run.
  eexists; eexists; split; [reflexivity |].
  rewrite after_classification_Error.
  unfold classified. cbn [Error_text].
  pose proof (Atoi_range (strings.TrimSpace (before_space text))) as Hr.
  destruct (strconv.Atoi (strings.TrimSpace (before_space text)))
    as [code [e |]]; [left; reflexivity |].
  right. exists code. simpl in Hr. auto.
Qed.

Example overflowing_code_not_classified :
  ReturnMail fresh_event
    (Some (errors_New "9223372036854775808 too large")) [] =
  Returned fresh_event
    [SessionReset 1%nat; ChannelSend 0%nat DelaySendEventResult].
Proof. reflexivity. Qed.

Section Continuation_facts.

Lemma is_plain_space : is_plain " " = false.
Proof. reflexivity. Qed.

(** A string of plain bytes that is not empty ends in a plain byte. *)
Lemma plain_last (s : string) :
  s <> EmptyString -> all_bytes is_plain s = true ->
  exists w l, s = (w ++ String l EmptyString)%string /\ is_plain l = true.
Proof.
  induction s as [| a s IH]; intros Hne H; [contradiction Hne; reflexivity |].
  simpl in H. apply andb_prop in H. destruct H as [Ha Hs].
  destruct s as [| b s].
  - exists EmptyString, a. auto.
  - destruct (IH ltac:(discriminate) Hs) as (w & l & Heq & Hl).
    exists (String a w), l. simpl. rewrite <- Heq. auto.
Qed.

(** [Atoi] rejects three digits followed by a hyphen. *)
Lemma Atoi_digits_hyphen (a b c : ascii) (w : string) :
  regexp.is_digit a = true -> regexp.is_digit b = true ->
  regexp.is_digit c = true ->
  strconv.Atoi (String a (String b (String c (String "-" w)))) =
  (0, Some strconv.ErrSyntax).
Proof.
  intros Ha Hb Hc.
  unfold strconv.Atoi.
  rewrite (is_digit_not "+" a eq_refl Ha), (is_digit_not "-" a eq_refl Ha).
  cbn [orb strconv.digits]. unfold strconv.digit.
  unfold regexp.is_digit in Ha, Hb, Hc. cbv zeta in *.
  rewrite Ha, Hb, Hc. reflexivity.
Qed.

End Continuation_facts.

(** X14: a raw error whose three-digit code is followed by a hyphen and
    plain text, as in the lines but the last of a reply of several lines
    ([550-5.1.1 ...]), is not classified: the call leaves the event as it
    was. *)
Theorem continuation_line_not_classified (event : SendEvent)
  (a b c : ascii) (w tail : string) (trace : list Effect) :
  regexp.is_digit a = true -> regexp.is_digit b = true ->
  regexp.is_digit c = true ->
  all_bytes is_plain w = true ->
  tail = EmptyString \/ (exists rest, tail = String " " rest) ->
  let text := (String a (String b (String c (String "-" w))) ++ tail)%string in
  exists effects,
    ReturnMail event (Some (errors_New text)) trace =
    Returned event (trace ++ effects) /\
    sends effects = [(Result event, verdict_for (Message event))].
Proof.
  intros Ha Hb Hc Hw Htail text.
  set (piece := String a (String b (String c (String "-" w)))).
  assert (Hplain : all_bytes is_plain piece = true).
  { unfold piece. simpl.
    rewrite (is_digit_plain a Ha), (is_digit_plain b Hb),
      (is_digit_plain c Hc), Hw. reflexivity. }
  assert (Hpiece : before_space text = piece).
  { pose proof (count_byte_outside _ _ _ is_plain_space Hplain) as Hno.
    unfold text. fold piece.
    destruct Htail as [-> | [rest ->]].
    - rewrite append_empty_r. apply before_space_all. exact Hno.
    - apply (before_space_stop _ rest Hno). }
  assert (Hcl : classified (Some (errors_New text)) = None).
  { unfold classified. cbn [Error_text]. rewrite Hpiece.
    destruct (plain_last (s := piece) ltac:(discriminate) Hplain)
      as (w' & l & Heq & Hl).
    unfold piece in Heq |- *.
    rewrite (@TrimSpace_plain a l _ w' (is_digit_plain a Ha) Hl Heq).
    rewrite (Atoi_digits_hyphen a b c w Ha Hb Hc). reflexivity. }
  rewrite ReturnMail_run.
  unfold after_classification. rewrite Hcl.
  eexists; split; [reflexivity |].
  rewrite sends_app, sends_session_effects. reflexivity.
Qed.

Lemma continuation_line_not_classified_witness :
  exists effects,
    ReturnMail stale_event
      (Some (errors_New "550-5.1.1 no such user")) [] =
    Returned stale_event ([] ++ effects) /\
    sends effects =
    [(Result stale_event, verdict_for (Message stale_event))].
Proof.
  apply (@continuation_line_not_classified stale_event "5" "5" "0"
           "5.1.1" " no such user" []);
    try reflexivity.
  right. eexists. reflexivity.
Defined.

(* ================================================================= *)
(** * Further properties of the address parser *)

Section Address_shape.

Local Open Scope nat_scope.

Lemma all_bytes_weaken (p q : ascii -> bool) (s : string) :
  (forall a, p a = true -> q a = true) ->
  all_bytes p s = true -> all_bytes q s = true.
Proof.
  intros Hpq. induction s as [| a s IH]; simpl; [reflexivity |].
  intros H. apply andb_prop in H. destruct H as [Ha Hs].
  rewrite (Hpq _ Ha), (IH Hs). reflexivity.
Qed.

Lemma local_class_address (a : ascii) :
  local_class a = true -> address_class a = true.
Proof. unfold address_class. intros ->. reflexivity. Qed.

Lemma domain_class_address (a : ascii) :
  domain_class a = true -> address_class a = true.
Proof.
  unfold address_class, domain_class, local_class.
  destruct (regexp.is_word a), (regexp.is_digit a), (is_char "." a),
    (is_char "_" a), (is_char "%" a), (is_char "+" a), (is_char "-" a);
    simpl; intros H; first [discriminate H | reflexivity].
Qed.

Lemma is_word_address (a : ascii) :
  regexp.is_word a = true -> address_class a = true.
Proof. unfold address_class, local_class. intros ->. reflexivity. Qed.

(** Every byte of a well-formed address is a byte of the classes of the
    pattern or [@]. *)
Lemma well_formed_bytes (local body tld : string) :
  well_formed local body tld ->
  all_bytes address_class (address_of local body tld) = true.
Proof.
  intros (_ & Hl & _ & Hb & _ & Ht).
  unfold address_of.
  rewrite all_bytes_append. simpl all_bytes.
  rewrite all_bytes_append. simpl all_bytes.
  rewrite (all_bytes_weaken _ _ _ local_class_address Hl).
  rewrite (all_bytes_weaken _ _ _ domain_class_address Hb).
  rewrite (all_bytes_weaken _ _ _ is_word_address Ht).
  reflexivity.
Qed.

Lemma is_word_dot : regexp.is_word "." = false.
Proof. reflexivity. Qed.

Lemma Split_no_separator (c : ascii) (s : string) :
  count_byte c s = 0 -> strings.Split s c = [s].
Proof.
  induction s as [| a s IH]; simpl; [reflexivity |].
  destruct (Ascii.eqb a c); [discriminate |].
  intros H. rewrite IH by assumption. reflexivity.
Qed.

(** Splitting on a byte distributes over an occurrence of the byte. *)
Lemma Split_at (c : ascii) (x y : string) :
  strings.Split (x ++ String c y) c =
  (strings.Split x c ++ strings.Split y c)%list.
Proof.
  induction x as [| a x IH]; simpl.
  - rewrite Ascii.eqb_refl. reflexivity.
  - destruct (Ascii.eqb a c); rewrite IH; [reflexivity |].
    pose proof (Split_not_nil x c) as Hne.
    destruct (strings.Split x c); [contradiction Hne |]; reflexivity.
Qed.

Lemma last_label_of (x tld : string) :
  count_byte "." tld = 0 ->
  last_label (x ++ String "." tld) = tld.
Proof.
  intros H. unfold last_label.
  rewrite Split_at, (Split_no_separator _ _ H). apply last_last.
Qed.

(** The hostname of an accepted address is not empty. *)
Lemma hostname_empty_iff_error (email : string) :
  fst (getHostnameFromEmail email) = EmptyString <->
  snd (getHostnameFromEmail email) <> None.
Proof.
  destruct (getHostnameFromEmail_cases email)
    as [(local & body & tld & Hwf & _ & _ & ->) | (_ & _ & ->)]; simpl.
  - destruct Hwf as (_ & _ & Hb & _).
    split; [| intros H; contradiction H; reflexivity].
    destruct body; [contradiction Hb; reflexivity | discriminate].
  - split; [discriminate | reflexivity].
Qed.

End Address_shape.

(** X9: an address that contains a byte which is neither [@] nor a byte of
    the class of the local part (a space, a line break, a quote, any byte
    of a character outside ASCII) is rejected. *)
Theorem foreign_byte_rejected (email : string) :
  all_bytes address_class email = false ->
  getHostnameFromEmail email = InvalidAddress.
Proof.
  intros H.
  destruct (getHostnameFromEmail_cases email)
    as [(local & body & tld & Hwf & -> & _) | (_ & _ & Hres)];
    [| exact Hres].
  rewrite (well_formed_bytes Hwf) in H. discriminate H.
Qed.

Lemma foreign_byte_rejected_witness :
  getHostnameFromEmail ("local@domain.tld" ++ String "010"%char "") =
  InvalidAddress.
Proof.
  apply foreign_byte_rejected. reflexivity.
Defined.

(** X10: the parser returns the empty hostname exactly when it returns
    the error; a hostname returned without error contains no [@], has a
    dot, is at least four bytes long, and the address is at least two
    bytes longer. *)
Theorem accepted_hostname_shape (email : string) :
  (fst (getHostnameFromEmail email) = EmptyString <->
   snd (getHostnameFromEmail email) <> None) /\
  (forall hostname : string,
     getHostnameFromEmail email = (hostname, None) ->
     count_byte "@" hostname = 0%nat /\
     (1 <= count_byte "." hostname)%nat /\
     (4 <= String.length hostname)%nat /\
     (String.length hostname + 2 <= String.length email)%nat).
Proof.
  split; [apply hostname_empty_iff_error |].
  intros hostname Hres.
  destruct (getHostnameFromEmail_cases email)
    as [(local & body & tld & Hwf & -> & _ & Hres')
       | (_ & _ & Hres')];
    [| rewrite Hres' in Hres; discriminate].
  rewrite Hres' in Hres. injection Hres as <-.
  destruct (well_formed_one_at Hwf) as [_ Hat].
  destruct Hwf as (Hl & _ & Hb & _ & Ht & _).
  split; [exact Hat |].
  rewrite count_byte_append, length_address_of, length_append.
  simpl.
  destruct local; [contradiction Hl; reflexivity |].
  destruct body; [contradiction Hb; reflexivity |].
  simpl. lia.
Qed.

(** X11: an address is accepted only if the text after its last dot is
    two to four word characters; that text is also the last label of the
    hostname returned. *)
Theorem accepted_top_level_label (email hostname : string) :
  getHostnameFromEmail email = (hostname, None) ->
  (2 <= String.length (last_label email) <= 4)%nat /\
  all_bytes regexp.is_word (last_label email) = true /\
  last_label hostname = last_label email.
Proof.
  intros Hres.
  destruct (getHostnameFromEmail_cases email)
    as [(local & body & tld & Hwf & -> & _ & Hres')
       | (_ & _ & Hres')];
    [| rewrite Hres' in Hres; discriminate].
  rewrite Hres' in Hres. injection Hres as <-.
  destruct Hwf as (_ & _ & _ & _ & Hlen & Ht).
  pose proof (count_byte_outside _ _ _ is_word_dot Ht) as Hdot.
  assert (He : last_label (address_of local body tld) = tld).
  { unfold address_of.
    change (local ++ "@" ++ body ++ "." ++ tld)%string
      with (local ++ (String "@" body) ++ String "." tld)%string.
    rewrite <- append_assoc. apply last_label_of. exact Hdot. }
  assert (Hh : last_label (body ++ String "." tld) = tld)
    by (apply (last_label_of body); exact Hdot).
  rewrite He, Hh. auto.
Qed.

Lemma accepted_top_level_label_witness :
  (2 <= String.length (last_label "local@mail.domain.tld") <= 4)%nat /\
  all_bytes regexp.is_word (last_label "local@mail.domain.tld") = true /\
  last_label "mail.domain.tld" = last_label "local@mail.domain.tld".
Proof.
  apply (@accepted_top_level_label "local@mail.domain.tld" "mail.domain.tld").
  reflexivity.
Defined.

(* ================================================================= *)
(** * Further properties of the initialisation of a message *)

(** X12: a second [Init] of a message changes only its id and its creation
    date, which it reads again from the clock: the hostnames and every
    other field are as the first [Init] left them. *)
Theorem MailMessage_Init_again (this : MailMessage)
  (clock clock' : time.Clock) :
  let once := fst (MailMessage_Init this clock) in
  let twice := fst (MailMessage_Init once clock') in
  HostnameFrom twice = HostnameFrom once /\
  HostnameTo twice = HostnameTo once /\
  Envelope twice = Envelope once /\ Recipient twice = Recipient once /\
  Body twice = Body once /\ BindingType twice = BindingType once /\
  Error twice = Error once /\
  Id twice = time.UnixNano (time.reading clock' (time.reads clock')) /\
  CreatedDate twice = time.reading clock' (S (time.reads clock')).
Proof.
  cbv zeta.
  pose proof (MailMessage_Init_run this clock) as H1. cbv zeta in H1.
  rewrite H1. cbn [fst].
  match goal with
  | |- context [MailMessage_Init ?m clock'] =>
    pose proof (MailMessage_Init_run m clock') as H2
  end.
  cbv zeta in H2. rewrite H2.
  cbn [fst Id Envelope Recipient Body HostnameFrom HostnameTo CreatedDate
       BindingType Error].
  repeat split.
  - destruct (snd (getHostnameFromEmail (Envelope this))); reflexivity.
  - destruct (snd (getHostnameFromEmail (Recipient this))); reflexivity.
Qed.

(** X13: for a message whose hostname fields are empty, as they are
    before the first [Init], each hostname is empty after [Init] exactly
    when the parser rejected the address it comes from. *)
Theorem MailMessage_Init_empty_hostname (this : MailMessage)
  (clock : time.Clock) :
  HostnameFrom this = EmptyString -> HostnameTo this = EmptyString ->
  let this' := fst (MailMessage_Init this clock) in
  (HostnameFrom this' = EmptyString <->
   snd (getHostnameFromEmail (Envelope this)) <> None) /\
  (HostnameTo this' = EmptyString <->
   snd (getHostnameFromEmail (Recipient this)) <> None).
Proof.
  intros Hfrom Hto.
  pose proof (MailMessage_Init_run this clock) as H1. cbv zeta in *.
  rewrite H1. cbn [fst HostnameFrom HostnameTo].
  pose proof (hostname_empty_iff_error (Envelope this)) as He.
  pose proof (hostname_empty_iff_error (Recipient this)) as Hr.
  rewrite Hfrom, Hto.
  split.
  - destruct (snd (getHostnameFromEmail (Envelope this))); [| exact He].
    split; [discriminate | reflexivity].
  - destruct (snd (getHostnameFromEmail (Recipient this))); [| exact Hr].
    split; [discriminate | reflexivity].
Qed.

Lemma MailMessage_Init_empty_hostname_witness :
  let this' :=
    fst (MailMessage_Init (new_message "not an address" "b@y.org" "hello")
           sample_clock) in
  (HostnameFrom this' = EmptyString <->
   snd (getHostnameFromEmail "not an address") <> None) /\
  (HostnameTo this' = EmptyString <->
   snd (getHostnameFromEmail "b@y.org") <> None).
Proof.
  apply (MailMessage_Init_empty_hostname
           (new_message "not an address" "b@y.org" "hello") sample_clock);
    reflexivity.
Defined.
